(** * Immanager: a shallow embedding of the image manager and its properties

    The development follows the four source files of the repository:
    [gui.py] (URL parsing, the remote walk, the loader and the two
    callbacks), [src/search.py], [src/clustering.py] and
    [src/image_embeddings.py].

    Conventions.
    - A Python [dict] is an association list in insertion order with
      pairwise distinct keys ([dict_wf]); item assignment updates in place
      or appends, as CPython does.
    - A Python exception is a value of [exception]; a call that may raise
      returns a [result].
    - Calls into the outside world (PIL, os, pysmb, CLIP, numpy, sklearn)
      are the methods of four interfaces ([World], [Clip], [Numpy],
      [Sklearn]); each external call of the loader is recorded, in program
      order, in a trace of [event]s. A call the source guards with [try],
      and a call whose library rejects some arguments, returns a [result];
      the other calls return.
    - A Python [str] is a [string]; the only characters the code inspects
      are ASCII ("/", ".", the letters of the three extensions), so byte
      strings are adequate, and [os.path.join] is the POSIX one. *)

From Stdlib Require Import List String Ascii Bool Arith ZArith Lia.
From Stdlib Require Import Permutation Sorted DecimalString.
Import ListNotations.

Local Open Scope string_scope.
Local Open Scope list_scope.

(** String concatenation; [++] is kept for lists. *)
Infix "+++" := String.append (right associativity, at level 60).

(** ** Python values: exceptions and results *)

Inductive exception : Type :=
| ValueError (msg : string)
| IndexError (msg : string)
| KeyError (msg : string)
| OSError (msg : string)
| AttributeError (msg : string)
| RuntimeError (msg : string).

(** [str(e)] *)
Definition str_of_exception (e : exception) : string :=
  match e with
  | ValueError m | IndexError m | KeyError m | OSError m
  | AttributeError m | RuntimeError m => m
  end.

Inductive result (A : Type) : Type :=
| Ok (a : A)
| Raise (e : exception).
Arguments Ok {A} a.
Arguments Raise {A} e.

Definition rbind {A B : Type} (r : result A) (k : A -> result B) : result B :=
  match r with
  | Ok a => k a
  | Raise e => Raise e
  end.

Declare Scope result_scope.
Delimit Scope result_scope with result.
Notation "'let?' x ':=' r 'in' k" := (rbind r (fun x => k))
  (at level 10, x pattern, r at level 100, k at level 200) : result_scope.

(** ** Python strings *)

Module PyStr.

(** [s.startswith(p)] *)
Fixpoint startswith (s p : string) {struct p} : bool :=
  match p with
  | EmptyString => true
  | String a p' =>
      match s with
      | EmptyString => false
      | String b s' => Ascii.eqb a b && startswith s' p'
      end
  end.

(** [s[n:]] for [n >= 0] *)
Fixpoint slice_from (n : nat) (s : string) : string :=
  match n, s with
  | O, _ => s
  | S _, EmptyString => EmptyString
  | S n', String _ s' => slice_from n' s'
  end.

(** [s.endswith(suf)] *)
Definition endswith (s suf : string) : bool :=
  let n := String.length s in
  let m := String.length suf in
  (m <=? n)%nat && String.eqb (slice_from (n - m) s) suf.

(** [s.endswith((suf1, suf2, ...))] *)
Definition endswith_any (s : string) (sufs : list string) : bool :=
  existsb (endswith s) sufs.

(** [s.split(sep)] for a one-character separator: never the empty list. *)
Fixpoint split (sep : ascii) (s : string) : list string :=
  match s with
  | EmptyString => [EmptyString]
  | String c s' =>
      if Ascii.eqb c sep then EmptyString :: split sep s'
      else match split sep s' with
           | [] => [String c EmptyString]
           | w :: ws => String c w :: ws
           end
  end.

(** [sep.join(l)] *)
Definition join (sep : string) (l : list string) : string :=
  String.concat sep l.

Definition lower_ascii (c : ascii) : ascii :=
  let n := nat_of_ascii c in
  if ((65 <=? n) && (n <=? 90))%nat then ascii_of_nat (n + 32) else c.

(** [s.lower()] *)
Fixpoint lower (s : string) : string :=
  match s with
  | EmptyString => EmptyString
  | String c s' => String (lower_ascii c) (lower s')
  end.

(** The character [c] does not occur in [s]. *)
Fixpoint lacks (c : ascii) (s : string) : Prop :=
  match s with
  | EmptyString => True
  | String c' s' => c' <> c /\ lacks c s'
  end.

End PyStr.

(** [os.path.join(a, b)] of [posixpath]. *)
Definition os_path_join (a b : string) : string :=
  if PyStr.startswith b "/" then b
  else if String.eqb a "" || PyStr.endswith a "/" then a +++ b
  else a +++ "/" +++ b.

(** ** Python dictionaries *)

Class PyKey (K : Type) : Type := {
  key_eqb : K -> K -> bool;
  key_eqb_spec : forall a b : K, reflect (a = b) (key_eqb a b)
}.

#[export] Instance PyKey_string : PyKey string :=
  {| key_eqb := String.eqb; key_eqb_spec := String.eqb_spec |}.

#[export] Instance PyKey_Z : PyKey Z :=
  {| key_eqb := Z.eqb; key_eqb_spec := Z.eqb_spec |}.

Section Dict.
Context {K V : Type} `{PyKey K}.

Definition dict : Type := list (K * V).

Definition dict_keys (d : dict) : list K := map fst d.

Definition dict_wf (d : dict) : Prop := NoDup (dict_keys d).

(** [d.get(k)] *)
Fixpoint dict_get (d : dict) (k : K) : option V :=
  match d with
  | [] => None
  | (k', v) :: d' => if key_eqb k' k then Some v else dict_get d' k
  end.

(** [d[k]] *)
Definition dict_index (d : dict) (k : K) : result V :=
  match dict_get d k with
  | Some v => Ok v
  | None => Raise (KeyError "key")
  end.

(** [d[k] = v] *)
Fixpoint dict_set (d : dict) (k : K) (v : V) : dict :=
  match d with
  | [] => [(k, v)]
  | (k', v') :: d' =>
      if key_eqb k' k then (k', v) :: d' else (k', v') :: dict_set d' k v
  end.

End Dict.
Arguments dict K V : clear implicits.

(** ** gui.py: parse_smb_url *)

(** [l[i]] *)
Definition list_index {A : Type} (l : list A) (i : nat) : result A :=
  match nth_error l i with
  | Some a => Ok a
  | None => Raise (IndexError "list index out of range")
  end.

Definition parse_smb_url (url : string) : result (string * string * string) :=
  if negb (PyStr.startswith url "smb://") then
    Raise (ValueError "Not an SMB URL")
  else
    let trimmed := PyStr.slice_from 6 url in
    let parts := PyStr.split "/" trimmed in
    if (List.length parts <? 2)%nat then
      Raise (ValueError "SMB URL must contain at least server and share")
    else
      (let? server := list_index parts 0 in
       let? share := list_index parts 1 in
       let? nonempty_path :=
         (if (2 <? List.length parts)%nat
          then (let? p := list_index parts 2 in Ok (negb (String.eqb p "")))
          else Ok false) in
       let rel_path :=
         if (nonempty_path : bool)
         then "/" +++ PyStr.join "/" (skipn 2 parts)
         else "/" in
       Ok (server, share, rel_path))%result.


(** ** Python lists *)

(** [l[:k]]: a negative [k] counts from the end. *)
Definition slice_to {A : Type} (l : list A) (k : Z) : list A :=
  if (0 <=? k)%Z then firstn (Z.to_nat k) l
  else firstn (List.length l - Z.to_nat (- k)) l.

(** [range(n)] *)
Definition py_range (n : Z) : list Z := map Z.of_nat (seq 0 (Z.to_nat n)).

(** [[f(x) for x in l]] where [f] may raise. *)
Fixpoint comprehension {A B : Type} (f : A -> result B) (l : list A)
  : result (list B) :=
  match l with
  | [] => Ok []
  | a :: l' =>
      (let? b := f a in
       let? bs := comprehension f l' in
       Ok (b :: bs))%result
  end.

(** A [for] loop whose body may raise: the first exception leaves the loop. *)
Fixpoint for_result {A S : Type} (l : list A) (body : S -> A -> result S) (s : S)
  : result S :=
  match l with
  | [] => Ok s
  | a :: l' => (let? s' := body s a in for_result l' body s')%result
  end.

Section Sorting.
Context {A : Type} (lt : A -> A -> bool).

(** Insertion of [x] in front of the first element that is not smaller:
    only [<] is called, and [x] goes before its equals. *)
Fixpoint insert_stable (x : A) (l : list A) : list A :=
  match l with
  | [] => [x]
  | y :: l' => if lt y x then y :: insert_stable x l' else x :: l
  end.

(** A stable ascending sort; [list.sort] is one. *)
Fixpoint sort_stable (l : list A) : list A :=
  match l with
  | [] => []
  | x :: l' => insert_stable x (sort_stable l')
  end.

End Sorting.

(** [sorted(l, key=key, reverse=reverse)]. CPython sorts a reversed copy and
    reverses the outcome when [reverse] is set, so that equal keys keep
    their order. *)
Definition sorted {A S : Type} (ltS : S -> S -> bool) (key : A -> S)
  (reverse : bool) (l : list A) : list A :=
  let lt := fun a b => ltS (key a) (key b) in
  if reverse then rev (sort_stable lt (rev l)) else sort_stable lt l.

(** ** The libraries behind the three source modules *)

(** numpy on embeddings and on the scores computed from them. [score_lt] is
    the [<] that sorting calls on two scores. *)
Class Numpy (Emb Score : Type) : Type := {
  np_dot : Emb -> Emb -> Score;
  np_T : Emb -> Emb;
  np_linalg_norm : Emb -> Score;
  score_mul : Score -> Score -> Score;
  score_div : Score -> Score -> Score;
  score_lt : Score -> Score -> bool
}.

(** sklearn: [np.vstack] of the rows and
    [KMeans(n_clusters, random_state).fit(X).labels_]. *)
Class Sklearn (Emb : Type) : Type := {
  Matrix : Type;
  np_vstack : list Emb -> result Matrix;
  KMeans_fit_labels : Z -> Z -> Matrix -> result (list Z)
}.

(** CLIP: [preprocess] and [model.encode_image] on an image,
    [clip.tokenize] and [model.encode_text] on a prompt; [clip.tokenize]
    raises for a prompt that is longer than the context of the model. *)
Class Clip (Image Emb : Type) : Type := {
  encode_image : Image -> Emb;
  encode_text : string -> result Emb
}.

(** ** src/search.py *)

Section Search.
Context {Emb Score : Type} `{Numpy Emb Score}.

Definition cosine_similarity (a b : Emb) : Score :=
  score_div (np_dot a (np_T b)) (score_mul (np_linalg_norm a) (np_linalg_norm b)).

Definition search_similar_images (text_embedding : Emb)
  (image_embeddings : dict string Emb) (top_k : Z) : list (string * Score) :=
  let similarities :=
    fold_left
      (fun (similarities : dict string Score) '(filename, img_embedding) =>
         let sim := cosine_similarity text_embedding img_embedding in
         dict_set similarities filename sim)
      image_embeddings [] in
  let sorted_images := sorted score_lt snd true similarities in
  slice_to sorted_images top_k.

End Search.

(** ** src/clustering.py *)

Section Clustering.
Context {Emb : Type} `{Sklearn Emb}.

Definition cluster_images (image_embeddings : dict string Emb) (num_clusters : Z)
  : result (dict Z (list string)) :=
  let filenames := dict_keys image_embeddings in
  (let? rows := comprehension (dict_index image_embeddings) filenames in
   let? embeddings := np_vstack rows in
   let? labels := KMeans_fit_labels num_clusters 0 embeddings in
   let clusters : dict Z (list string) :=
     map (fun i => (i, [])) (py_range num_clusters) in
   for_result (combine filenames labels)
     (fun clusters '(filename, label) =>
        let? group := dict_index clusters label in
        Ok (dict_set clusters label (group ++ [filename])))
     clusters)%result.

End Clustering.

(** ** src/image_embeddings.py *)

Section ImageEmbeddings.
Context {Image Emb : Type} `{Clip Image Emb}.

Definition get_image_embeddings (images_dict : dict string Image)
  : dict string Emb :=
  fold_left
    (fun (embeddings : dict string Emb) '(filename, img) =>
       dict_set embeddings filename (encode_image img))
    images_dict [].

Definition get_text_embedding (text : string) : result Emb := encode_text text.

End ImageEmbeddings.

(** ** gui.py: the outside world *)

(** What [load_env_settings] returns. *)
Record env_settings : Type := {
  env_username : option string;
  env_password : option string;
  env_domain : string;
  env_client_name : option string
}.

(** The arguments an [SMBConnection] is built from. *)
Record SMBConnection : Type := {
  conn_username : option string;
  conn_password : option string;
  conn_my_name : option string;
  conn_remote_name : string;
  conn_domain : string;
  conn_use_ntlm_v2 : bool
}.

(** An entry of a directory listing (pysmb's [SharedFile]). *)
Record SharedFile : Type := {
  filename : string;
  isDirectory : bool
}.

(** What [conn.listPath] answers below a directory of a share: the listing
    of the directory itself (or the exception raised) and, with every
    entry, what listing the path of this entry answers in turn. A share is
    a finite tree, so the nesting is finite. *)
#[local] Set Warnings "-register-all".
Inductive smb_tree : Type :=
| SmbListing (listing : result (list (SharedFile * smb_tree))).

Class World (Image : Type) : Type := {
  (** [os.getenv(name)] *)
  os_getenv : string -> option string;
  (** [Image.open(path).convert("RGB")] on a local path *)
  Image_open : string -> result Image;
  (** [Image.open(buffer).convert("RGB")] on the bytes of a buffer *)
  Image_open_buffer : string -> result Image;
  (** [os.path.isdir(path)] *)
  os_path_isdir : string -> bool;
  (** [os.walk(top)], the triples it yields *)
  os_walk : string -> list (string * list string * list string);
  (** [SMBConnection(...)] on these arguments: the constructor raises on
      arguments it cannot use *)
  SMBConnection_init : SMBConnection -> result unit;
  (** [conn.connect(ip, port)]: the answer of the authentication, or the
      exception of a server that cannot be reached *)
  smb_connect : SMBConnection -> string -> Z -> result bool;
  (** [conn.listPath(share, top)], with the listings below it *)
  smb_listPath : SMBConnection -> string -> string -> smb_tree;
  (** [conn.retrieveFile(share, path, buffer)], the bytes written *)
  smb_retrieveFile : SMBConnection -> string -> string -> result string;
  (** [img.save(buffer, format="PNG")], the bytes written *)
  Image_save_png : Image -> string;
  (** [base64.b64encode(data).decode("utf-8")] *)
  b64encode : string -> string
}.

(** The external calls of the loader, in program order. *)
Inductive event : Type :=
| EvImageOpen (path : string)
| EvPrint (line : string)
| EvIsDir (path : string)
| EvOsWalk (top : string)
| EvConnect (conn : SMBConnection) (ip : string) (port : Z)
| EvListPath (conn : SMBConnection) (share path : string)
| EvRetrieveFile (conn : SMBConnection) (share path : string)
| EvClose (conn : SMBConnection).

(** A computation that issues external calls and yields a value. *)
Definition io (A : Type) : Type := (list event * A)%type.

Definition ret {A : Type} (a : A) : io A := ([], a).

Definition bind {A B : Type} (m : io A) (k : A -> io B) : io B :=
  let (t1, a) := m in
  let (t2, b) := k a in
  (t1 ++ t2, b).

Definition emit (e : event) : io unit := ([e], tt).

Definition trace {A : Type} (m : io A) : list event := fst m.
Definition value {A : Type} (m : io A) : A := snd m.

Declare Scope io_scope.
Delimit Scope io_scope with io.
Notation "x <- m ;; k" := (bind m (fun x => k))
  (at level 61, m at next level, right associativity) : io_scope.
Notation "m ;; k" := (bind m (fun _ => k))
  (at level 61, right associativity) : io_scope.

(** A [for] loop over [l] that threads the loop's variables [s]. *)
Fixpoint for_each {A S : Type} (l : list A) (body : S -> A -> io S) (s : S)
  : io S :=
  match l with
  | [] => ret s
  | a :: l' => (s' <- body s a ;; for_each l' body s')%io
  end.

(** [print(a, b, c)] *)
Definition print3 (a b c : string) : io unit :=
  emit (EvPrint (a +++ " " +++ b +++ " " +++ c)).

(** ** gui.py: helper functions *)

Section Gui.
Context {Image Emb Score : Type}.
Context `{World Image} `{Clip Image Emb} `{Numpy Emb Score} `{Sklearn Emb}.

Definition load_env_settings : env_settings :=
  {| env_username := os_getenv "SMB_USERNAME";
     env_password := os_getenv "SMB_PASSWORD";
     env_domain := match os_getenv "SMB_DOMAIN" with Some d => d | None => "" end;
     env_client_name := os_getenv "CLIENT_NAME" |}.

(** [name in [".", ".."]] *)
Definition is_dot_entry (name : string) : bool :=
  existsb (String.eqb name) ["."; ".."].

(** What the generator [smb_walk] does, in order: an external call, or a
    triple handed to the loop that consumes it. *)
Inductive walk_step : Type :=
| WalkCall (e : event)
| WalkYield (top : string) (dirs files : list string).

(** [smb_walk(conn, share, top)], where [tree] is what [conn.listPath]
    answers at [top] and below. *)
Fixpoint smb_walk (conn : SMBConnection) (tree : smb_tree) (share top : string)
  : list walk_step :=
  match tree with
  | SmbListing listing =>
      WalkCall (EvListPath conn share top) ::
      match listing with
      | Raise e =>
          [WalkCall (EvPrint ("Error listing directory " +++ top +++ ": "
                              +++ str_of_exception e))]
      | Ok entries =>
          let shown :=
            filter (fun entry => negb (is_dot_entry (filename (fst entry))))
                   entries in
          let dirs :=
            map (fun entry => filename (fst entry))
                (filter (fun entry => isDirectory (fst entry)) shown) in
          let files :=
            map (fun entry => filename (fst entry))
                (filter (fun entry => negb (isDirectory (fst entry))) shown) in
          WalkYield top dirs files ::
          flat_map
            (fun entry =>
               if negb (is_dot_entry (filename (fst entry)))
                  && isDirectory (fst entry)
               then
                 let d := filename (fst entry) in
                 let new_top := os_path_join top d in
                 smb_walk conn (snd entry) share new_top
               else [])
            entries
      end
  end.

Definition pil_to_base64 (img : Image) : string :=
  let img_str := b64encode (Image_save_png img) in
  "data:image/png;base64," +++ img_str.

(** ** gui.py: load_images_combined *)

(** The interactive session state. *)
Record session : Type := {
  images : dict string Image;
  embeddings : dict string Emb
}.

(** [filename.lower().endswith(('.png', '.jpg', '.jpeg'))] *)
Definition is_image_name (filename : string) : bool :=
  PyStr.endswith_any (PyStr.lower filename) [".png"; ".jpg"; ".jpeg"].

(** The truth value of a list that may be [None]. *)
Definition truthy_list {A : Type} (l : option (list A)) : bool :=
  match l with
  | Some (_ :: _) => true
  | _ => false
  end.

(** The truth value of a string that may be [None]. *)
Definition truthy_str (s : option string) : bool :=
  match s with
  | Some s => negb (String.eqb s "")
  | None => false
  end.

(** The [try] block of the uploaded and of the local files (lines 92-95
    and 142-145): open the file and store it, or print the exception. *)
Definition open_local (label : string) (images : dict string Image)
  (key : string) : io (dict string Image) :=
  (emit (EvImageOpen key) ;;
   match Image_open key with
   | Ok img => ret (dict_set images key img)
   | Raise e => print3 label key (str_of_exception e) ;; ret images
   end)%io.

(** The [try] block of a remote file (lines 126-134). *)
Definition open_remote (conn : SMBConnection) (share : string)
  (images : dict string Image) (full_path : string) : io (dict string Image) :=
  (emit (EvRetrieveFile conn share full_path) ;;
   match (let? file_buffer := smb_retrieveFile conn share full_path in
          Image_open_buffer file_buffer)%result with
   | Ok img => ret (dict_set images full_path img)
   | Raise e =>
       print3 "Error loading SMB file:" full_path (str_of_exception e) ;;
       ret images
   end)%io.

(** The loop over the names of one directory (lines 123-125 and 139-141). *)
Definition load_directory
  (open : dict string Image -> string -> io (dict string Image))
  (root : string) (files_in_dir : list string) (images : dict string Image)
  : io (dict string Image) :=
  for_each files_in_dir
    (fun images filename =>
       if is_image_name filename then
         let full_path := os_path_join root filename in
         open images full_path
       else ret images)
    images.

(** The loop that consumes [smb_walk] (line 122). *)
Definition consume_walk (conn : SMBConnection) (share : string)
  (steps : list walk_step) (images : dict string Image)
  : io (dict string Image) :=
  for_each steps
    (fun images step =>
       match step with
       | WalkCall e => (emit e ;; ret images)%io
       | WalkYield root _ files_in_dir =>
           load_directory (open_remote conn share) root files_in_dir images
       end)
    images.

(** The branches of [load_images_combined] up to line 149: the status of
    an early [return] or the images loaded, or the exception of a call
    that no [try] guards. *)
Definition load_images (files : option (list string))
  (folder_path : option string) : io (result (string + dict string Image)) :=
  if truthy_list files then
    (images <- for_each (match files with Some l => l | None => [] end)
                 (open_local "Error loading file:") [] ;;
     ret (Ok (inr images)))%io
  else if truthy_str folder_path then
    let folder_path := match folder_path with Some s => s | None => "" end in
    if PyStr.startswith folder_path "smb://" then
      match parse_smb_url folder_path with
      | Raise e => ret (Ok (inl ("Invalid SMB URL: " +++ str_of_exception e)))
      | Ok (server, share, rel_path) =>
          let env := load_env_settings in
          let remote_name := server in
          let server_ip := server in
          let conn :=
            {| conn_username := env_username env;
               conn_password := env_password env;
               conn_my_name := env_client_name env;
               conn_remote_name := remote_name;
               conn_domain := env_domain env;
               conn_use_ntlm_v2 := true |} in
          match SMBConnection_init conn with
          | Raise e => ret (Raise e)
          | Ok _ =>
              (emit (EvConnect conn server_ip 445) ;;
               match smb_connect conn server_ip 445 with
               | Raise e => ret (Raise e)
               | Ok connected =>
                   if negb connected then
                     ret (Ok (inl "Connection failed."))
                   else
                     images <- consume_walk conn share
                                 (smb_walk conn
                                    (smb_listPath conn share rel_path)
                                    share rel_path) [] ;;
                     emit (EvClose conn) ;;
                     ret (Ok (inr images))
               end)%io
          end
      end
    else
      (emit (EvIsDir folder_path) ;;
       if os_path_isdir folder_path then
         emit (EvOsWalk folder_path) ;;
         images <- for_each (os_walk folder_path)
                     (fun images '(root, _, files_in_dir) =>
                        load_directory (open_local "Error loading local file:")
                                       root files_in_dir images)
                     [] ;;
         ret (Ok (inr images))
       else ret (Ok (inl "Invalid folder path provided.")))%io
  else ret (Ok (inl "No images provided")).

Definition load_images_combined (files : option (list string))
  (folder_path : option string) : io (result (string * option session)) :=
  (loaded <- load_images files folder_path ;;
   match loaded with
   | Raise e => ret (Raise e)
   | Ok (inl status) => ret (Ok (status, None))
   | Ok (inr images) =>
       match images with
       | [] => ret (Ok ("No images loaded", None))
       | _ :: _ =>
           let embeddings := get_image_embeddings images in
           let state := {| images := images; embeddings := embeddings |} in
           ret (Ok ("Images loaded successfully", Some state))
       end
   end)%io.

(** ** gui.py: the search and clustering callbacks *)

Definition search_images (prompt : string) (state : option session)
  : result (list Image) :=
  match state with
  | None => Ok []
  | Some state =>
      (let? text_emb := get_text_embedding prompt in
       let results := search_similar_images text_emb (embeddings state) 5 in
       comprehension (fun '(filename, _) => dict_index (images state) filename)
                     results)%result
  end.

(** [str(n)] *)
Definition str_of_Z (n : Z) : string := NilZero.string_of_int (Z.to_int n).

Definition cluster_images_gui (state : option session) (num_clusters : Z)
  : result string :=
  match state with
  | None => Ok "No images loaded."
  | Some state =>
      (let? clusters := cluster_images (embeddings state) num_clusters in
       for_result clusters
         (fun html_output '(cluster_id, filenames) =>
            let html_output :=
              html_output +++ "<h3>Cluster " +++ str_of_Z cluster_id +++ "</h3>" in
            let html_output :=
              html_output +++ "<div style='display:flex; flex-wrap: wrap;'>" in
            let? html_output :=
              for_result filenames
                (fun html_output filename =>
                   let? img := dict_index (images state) filename in
                   let img_base64 := pil_to_base64 img in
                   Ok (html_output +++ "<img src='" +++ img_base64
                       +++ "' style='width: 100px; margin: 5px;'>"))
                html_output in
            Ok (html_output +++ "</div>"))
         "")%result
  end.

End Gui.

(** * The vocabulary of the properties

    What the statements below speak of, besides the functions of the
    source. *)

(** ** URLs, orders, partitions *)

(** The form [smb://server/share/p1/.../pn]: the server and the share are
    slash-free, the path components are slash-free and not empty. *)
Definition path_component (p : string) : Prop := p <> "" /\ PyStr.lacks "/" p.

(** The comparisons a sort can rely on: [<] is asymmetric and "not smaller"
    is transitive. Floating-point scores meet it unless one is a NaN. *)
Definition strict_weak_order {A : Type} (lt : A -> A -> bool) : Prop :=
  (forall a b, lt a b = true -> lt b a = false)
  /\ (forall a b c, lt a b = false -> lt b c = false -> lt a c = false).

(** The same of the comparisons among the elements of [l] only.
    Floating-point scores meet it when none of them is a NaN. *)
Definition weak_order_on {A : Type} (lt : A -> A -> bool) (l : list A) : Prop :=
  (forall a b, In a l -> In b l -> lt a b = true -> lt b a = false)
  /\ (forall a b c, In a l -> In b l -> In c l ->
                    lt a b = false -> lt b c = false -> lt a c = false).

Section SearchVocabulary.
Context {Emb Score : Type} `{Numpy Emb Score}.

(** The filenames paired with their scores, in the order of the map. *)
Definition scored (text_embedding : Emb) (image_embeddings : dict string Emb)
  : list (string * Score) :=
  map (fun '(filename, img_embedding) =>
         (filename, cosine_similarity text_embedding img_embedding))
      image_embeddings.

End SearchVocabulary.

(** The filenames that carry the label [i], in the order of the map. *)
Definition grouped (pairs : list (string * Z)) (i : Z) : list string :=
  map fst (filter (fun p => Z.eqb (snd p) i) pairs).

(** A dictionary with the keys [range] and the value [g i] at [i]. *)
Definition table {V : Type} (g : Z -> V) (range : list Z) : dict Z V :=
  map (fun i => (i, g i)) range.

(** [clusters] has the groups [0 .. num_clusters - 1] and every filename of
    the map is in exactly one of them, once; the groups hold nothing else. *)
Definition is_partition {Emb : Type} (image_embeddings : dict string Emb)
  (num_clusters : Z) (clusters : dict Z (list string)) : Prop :=
  dict_keys clusters = py_range num_clusters
  /\ Z.of_nat (List.length clusters) = num_clusters
  /\ (forall filename, In filename (dict_keys image_embeddings) ->
        exists i group,
          dict_get clusters i = Some group
          /\ count_occ string_dec group filename = 1%nat
          /\ forall j group',
               dict_get clusters j = Some group' -> In filename group' -> j = i)
  /\ (forall j group' filename,
        dict_get clusters j = Some group' -> In filename group' ->
        In filename (dict_keys image_embeddings)).

(** ** Loading loops *)

(** One round of a loading loop: the image is stored under its key, or the
    dictionary is left as it is. *)
Definition store {Image : Type} (fetch : string -> result Image)
  (images : dict string Image) (key : string) : dict string Image :=
  match fetch key with
  | Ok img => dict_set images key img
  | Raise _ => images
  end.

Definition load_all {Image : Type} (fetch : string -> result Image)
  (keys : list string) (images : dict string Image) : dict string Image :=
  fold_left (store fetch) keys images.

(** The calls of one round: [attempt] first, then the line printed when the
    file fails. *)
Definition round_calls {Image : Type} (fetch : string -> result Image)
  (attempt : string -> event) (label : string) (key : string) : list event :=
  attempt key ::
  match fetch key with
  | Ok _ => []
  | Raise e => [EvPrint (label +++ " " +++ key +++ " " +++ str_of_exception e)]
  end.

(** The keys tried in one directory: the joined paths of the image names. *)
Definition directory_keys (root : string) (files_in_dir : list string)
  : list string :=
  map (os_path_join root) (filter is_image_name files_in_dir).

Section LoaderVocabulary.
Context {Image Emb : Type} `{World Image} `{Clip Image Emb}.

(** What a remote file yields: its bytes, decoded. *)
Definition fetch_remote (conn : SMBConnection) (share full_path : string)
  : result Image :=
  (let? file_buffer := smb_retrieveFile conn share full_path in
   Image_open_buffer file_buffer)%result.

Definition local_calls (label : string) : string -> list event :=
  round_calls Image_open EvImageOpen label.

Definition remote_calls (conn : SMBConnection) (share : string)
  : string -> list event :=
  round_calls (fetch_remote conn share) (EvRetrieveFile conn share)
              "Error loading SMB file:".

(** The keys tried along a remote walk, and its calls. *)
Definition walk_keys (steps : list walk_step) : list string :=
  flat_map (fun step =>
              match step with
              | WalkCall _ => []
              | WalkYield root _ files_in_dir => directory_keys root files_in_dir
              end) steps.

Definition walk_calls (conn : SMBConnection) (share : string)
  (steps : list walk_step) : list event :=
  flat_map (fun step =>
              match step with
              | WalkCall e => [e]
              | WalkYield root _ files_in_dir =>
                  flat_map (remote_calls conn share)
                           (directory_keys root files_in_dir)
              end) steps.

(** The keys tried along a local walk. *)
Definition local_keys (triples : list (string * list string * list string))
  : list string :=
  flat_map (fun '(root, _, files_in_dir) => directory_keys root files_in_dir)
           triples.

(** The connection the loader builds for a server. *)
Definition connection_of (server : string) : SMBConnection :=
  {| conn_username := env_username load_env_settings;
     conn_password := env_password load_env_settings;
     conn_my_name := env_client_name load_env_settings;
     conn_remote_name := server;
     conn_domain := env_domain load_env_settings;
     conn_use_ntlm_v2 := true |}.

(** Lines 151-156: the status and the state for what was loaded. *)
Definition finish (loaded : result (string + dict string Image))
  : result (string * option (@session Image Emb)) :=
  match loaded with
  | Raise e => Raise e
  | Ok (inl status) => Ok (status, None)
  | Ok (inr []) => Ok ("No images loaded", None)
  | Ok (inr images) =>
      Ok ("Images loaded successfully",
          Some {| images := images;
                  embeddings := get_image_embeddings images |})
  end.

(** The error cases of the loader, each with its status. *)
Inductive load_error (files : option (list string))
  (folder_path : option string) : string -> Prop :=
| NoInput :
    truthy_list files = false -> truthy_str folder_path = false ->
    load_error files folder_path "No images provided"
| InvalidUrl (url : string) (e : exception) :
    truthy_list files = false -> folder_path = Some url ->
    PyStr.startswith url "smb://" = true ->
    parse_smb_url url = Raise e ->
    load_error files folder_path ("Invalid SMB URL: " +++ str_of_exception e)
| ConnectionFailed (url server share rel_path : string) :
    truthy_list files = false -> folder_path = Some url ->
    PyStr.startswith url "smb://" = true ->
    parse_smb_url url = Ok (server, share, rel_path) ->
    SMBConnection_init (connection_of server) = Ok tt ->
    smb_connect (connection_of server) server 445 = Ok false ->
    load_error files folder_path "Connection failed."
| InvalidFolder (path : string) :
    truthy_list files = false -> folder_path = Some path -> path <> "" ->
    PyStr.startswith path "smb://" = false ->
    os_path_isdir path = false ->
    load_error files folder_path "Invalid folder path provided."
| NothingLoaded :
    value (load_images files folder_path) = Ok (inr []) ->
    load_error files folder_path "No images loaded".

(** What a load owes to a file it tried under [key]: when the file failed,
    the exception was printed and no state holds the key; when it loaded,
    the load succeeded and its state holds the image under the key. *)
Definition outcome_respected
  (r : io (result (string * option (@session Image Emb))))
  (label key : string) (outcome : result Image) : Prop :=
  match outcome with
  | Raise e =>
      In (EvPrint (label +++ " " +++ key +++ " " +++ str_of_exception e)) (trace r)
      /\ forall status state,
           value r = Ok (status, Some state) ->
           dict_get (images state) key = None
  | Ok img =>
      exists state,
        value r = Ok ("Images loaded successfully", Some state)
        /\ dict_get (images state) key = Some img
  end.

End LoaderVocabulary.

(** ** Traces and listings *)

(** Induction on the listings of a share. *)
Fixpoint smb_tree_induction (P : smb_tree -> Prop)
  (Hraise : forall e, P (SmbListing (Raise e)))
  (Hok : forall entries,
      Forall (fun entry => P (snd entry)) entries -> P (SmbListing (Ok entries)))
  (tree : smb_tree) {struct tree} : P tree :=
  match tree with
  | SmbListing (Raise e) => Hraise e
  | SmbListing (Ok entries) =>
      Hok entries
        ((fix all (l : list (SharedFile * smb_tree))
            : Forall (fun entry => P (snd entry)) l :=
            match l with
            | [] => Forall_nil _
            | entry :: l' =>
                Forall_cons entry
                  (smb_tree_induction P Hraise Hok (snd entry)) (all l')
            end) entries)
  end.

Definition is_connect (e : event) : bool :=
  match e with EvConnect _ _ _ => true | _ => false end.

Definition is_close (e : event) : bool :=
  match e with EvClose _ => true | _ => false end.

(** A call made on the connection [conn] while it is open, or a line
    printed. *)
Definition uses_connection (conn : SMBConnection) (e : event) : Prop :=
  match e with
  | EvListPath c _ _ | EvRetrieveFile c _ _ => c = conn
  | EvPrint _ => True
  | _ => False
  end.

Definition is_upload_call (l : list string) (e : event) : Prop :=
  match e with
  | EvImageOpen file => In file l
  | EvPrint _ => True
  | _ => False
  end.

(** * A small world to run the model in

    A laptop with a folder of pictures and a file server with one share,
    used for the concrete runs below. An image is the text that stands for
    its pixels, an embedding is a vector of integers. *)

Module Demo.

Definition Image : Type := string.
Definition Emb : Type := list Z.
Definition Score : Type := Z.

Definition file (name : string) : SharedFile :=
  {| filename := name; isDirectory := false |}.

Definition folder (name : string) : SharedFile :=
  {| filename := name; isDirectory := true |}.

Definition nothing : smb_tree := SmbListing (Raise (OSError "not a directory")).

(** The share [photos]: two images and a text at the top, one image in
    [2024], and a folder that cannot be listed. *)
Definition photos : smb_tree :=
  SmbListing (Ok
    [ (folder ".", nothing);
      (folder "..", nothing);
      (file "r.png", nothing);
      (file "bad.jpg", nothing);
      (file "readme.md", nothing);
      (folder "2024",
         SmbListing (Ok [ (folder ".", nothing);
                          (folder "..", nothing);
                          (file "s.JPEG", nothing) ]));
      (folder "locked", SmbListing (Raise (OSError "access denied"))) ]).

Definition lookup {A : Type} (table : list (string * A)) (default : A)
  (key : string) : A :=
  match dict_get table key with
  | Some a => a
  | None => default
  end.

(** As the constructor of pysmb does, which takes [my_name.upper()]. *)
Definition connection_init (conn : SMBConnection) : result unit :=
  match conn_my_name conn with
  | Some _ => Ok tt
  | None => Raise (AttributeError "'NoneType' object has no attribute 'upper'")
  end.

(** The server [nas] accepts the login, the server [vault] refuses it, and
    no other name resolves. *)
Definition connect (ip : string) (port : Z) : result bool :=
  if String.eqb ip "nas" && Z.eqb port 445 then Ok true
  else if String.eqb ip "vault" then Ok false
  else Raise (OSError "[Errno -2] Name or service not known").

(** The machine, given the variables of its environment. *)
Definition world_with (environ : list (string * option string))
  : World Image := {|
  os_getenv := lookup environ None;
  Image_open :=
    lookup [("/pics/a.png", Ok "pixels of a");
            ("/pics/sub/b.JPG", Ok "pixels of b");
            ("/pics/c.jpeg", Raise (OSError "cannot identify image file"));
            ("/tmp/upload/u.png", Ok "pixels of u")]
           (Raise (OSError "No such file or directory"));
  Image_open_buffer :=
    lookup [("bytes of r", Ok "pixels of r"); ("bytes of s", Ok "pixels of s")]
           (Raise (OSError "cannot identify image file"));
  os_path_isdir := lookup [("/pics", true); ("/pics/sub", true)] false;
  os_walk :=
    lookup [("/pics",
             [("/pics", ["sub"], ["a.png"; "c.jpeg"; "notes.txt"]);
              ("/pics/sub", [], ["b.JPG"])])] [];
  SMBConnection_init := connection_init;
  smb_connect := fun _ ip port => connect ip port;
  smb_listPath := fun _ share top =>
    if String.eqb share "photos" && String.eqb top "/" then photos else nothing;
  smb_retrieveFile := fun _ share path =>
    lookup [("/r.png", Ok "bytes of r"); ("/bad.jpg", Ok "not an image");
            ("/2024/s.JPEG", Ok "bytes of s")]
           (Raise (OSError "Unable to open file")) path;
  Image_save_png := fun img => img;
  b64encode := fun data => data
|}.

#[export] Instance world : World Image :=
  world_with [("SMB_USERNAME", Some "ana"); ("SMB_PASSWORD", Some "secret");
              ("CLIENT_NAME", Some "laptop")].

(** The same machine with [CLIENT_NAME] left unset. *)
Definition world_without_client_name : World Image :=
  world_with [("SMB_USERNAME", Some "ana"); ("SMB_PASSWORD", Some "secret")].

Definition text_vector (s : string) : Emb :=
  [Z.of_nat (String.length s); 1%Z].

(** As [clip.tokenize] does, the encoder of prompts refuses a prompt that
    does not fit the context of 77 tokens (here a character is a token,
    and two tokens mark the start and the end). *)
#[export] Instance clip : Clip Image Emb := {|
  encode_image := text_vector;
  encode_text := fun s =>
    if (75 <? String.length s)%nat
    then Raise (RuntimeError "Input is too long for context length 77")
    else Ok (text_vector s)
|}.

Definition dot (a b : Emb) : Z :=
  fold_left Z.add (map (fun p => (fst p * snd p)%Z) (combine a b)) 0%Z.

(** Scores in thousandths. *)
#[export] Instance numpy : Numpy Emb Score := {|
  np_dot := fun a b => (1000 * dot a b)%Z;
  np_T := fun a => a;
  np_linalg_norm := fun a => Z.sqrt (dot a a);
  score_mul := Z.mul;
  score_div := Z.div;
  score_lt := Z.ltb
|}.

(** Scores as floating-point numbers have them: [None] stands for the
    value that is no number (NaN), which the quotient of zero by zero is
    and which is neither smaller nor greater than any score. *)
Definition numpy_with_nan : Numpy Emb (option Z) := {|
  np_dot := fun a b => Some (1000 * dot a b)%Z;
  np_T := fun a => a;
  np_linalg_norm := fun a => Some (Z.sqrt (dot a a));
  score_mul := fun x y =>
    match x, y with
    | Some x, Some y => Some (x * y)%Z
    | _, _ => None
    end;
  score_div := fun x y =>
    match x, y with
    | Some x, Some y => if (y =? 0)%Z then None else Some (x / y)%Z
    | _, _ => None
    end;
  score_lt := fun x y =>
    match x, y with
    | Some x, Some y => (x <? y)%Z
    | _, _ => false
    end
|}.

(** Three images, one of them blank: its embedding is the zero vector. *)
Definition album : dict string Emb :=
  [("cat.png", [4; 3]%Z); ("blank.png", [0; 0]%Z); ("dog.png", [3; 4]%Z)].

(** As [KMeans] of sklearn does, the fit refuses fewer than one cluster and
    more clusters than rows; the labels it gives stand for those of a real
    fit (the rows are labelled in turn). *)
#[export] Instance sklearn : Sklearn Emb := {|
  Matrix := list Emb;
  np_vstack := fun rows =>
    match rows with
    | [] => Raise (ValueError "need at least one array to concatenate")
    | _ => Ok rows
    end;
  KMeans_fit_labels := fun n_clusters _ X =>
    if ((1 <=? n_clusters) && (n_clusters <=? Z.of_nat (List.length X)))%Z
    then Ok (map (fun i => (i mod n_clusters)%Z)
                 (py_range (Z.of_nat (List.length X))))
    else Raise (ValueError "n_samples should be >= n_clusters")
|}.

Definition local_images : dict string Image :=
  [("/pics/a.png", "pixels of a"); ("/pics/sub/b.JPG", "pixels of b")].

Definition local_state : @session Image Emb :=
  {| images := local_images;
     embeddings := [("/pics/a.png", [11; 1]%Z); ("/pics/sub/b.JPG", [11; 1]%Z)] |}.

Definition remote_images : dict string Image :=
  [("/r.png", "pixels of r"); ("/2024/s.JPEG", "pixels of s")].

Definition library : dict string Emb :=
  [("cat.png", [3; 4]%Z); ("dog.png", [4; 3]%Z); ("car.png", [0; 5]%Z);
   ("tree.png", [5; 0]%Z)].

End Demo.

(** * More of the code

    The function of [src/image_embeddings.py] that the callbacks do not
    use, and the vocabulary of the further properties. *)

(** ** src/image_embeddings.py: load_images_from_folder *)

(** [os.listdir(path)], which raises for a path that is no directory. *)
Class Listdir : Type := {
  os_listdir : string -> result (list string)
}.

Section ImagesFromFolder.
Context {Image : Type} `{World Image} `{Listdir}.

(** The loop has no [try]: the first exception leaves the function. *)
Definition load_images_from_folder (folder_path : string)
  : result (dict string Image) :=
  (let? names := os_listdir folder_path in
   for_result names
     (fun (images : dict string Image) filename =>
        if is_image_name filename then
          let path := os_path_join folder_path filename in
          let? img := Image_open path in
          Ok (dict_set images filename img)
        else Ok images)
     [])%result.

End ImagesFromFolder.

(** ** Further vocabulary *)

(** [below] is [tree] itself or a subdirectory that the walk of [tree]
    comes to: a chain of directory entries, none of them [.] or [..], each
    in a listing that answered. [top] and [top'] are their paths. *)
Inductive reaches : smb_tree -> string -> smb_tree -> string -> Prop :=
| reaches_here (tree : smb_tree) (top : string) : reaches tree top tree top
| reaches_below (entries : list (SharedFile * smb_tree)) (top : string)
    (entry : SharedFile) (sub below : smb_tree) (top' : string) :
    In (entry, sub) entries ->
    is_dot_entry (filename entry) = false ->
    isDirectory entry = true ->
    reaches sub (os_path_join top (filename entry)) below top' ->
    reaches (SmbListing (Ok entries)) top below top'.

Definition is_listing (step : walk_step) : bool :=
  match step with
  | WalkCall (EvListPath _ _ _) => true
  | _ => false
  end.

(** The directory names of all the triples of a walk. *)
Definition yielded_dirs (steps : list walk_step) : list string :=
  flat_map (fun step =>
              match step with
              | WalkYield _ dirs _ => dirs
              | WalkCall _ => []
              end) steps.

(** The names of all the triples of a walk, directories and files. *)
Definition yielded_names (steps : list walk_step) : list string :=
  flat_map (fun step =>
              match step with
              | WalkYield _ dirs files => dirs ++ files
              | WalkCall _ => []
              end) steps.

(** The entry [p] has the score [s], as far as [<] can tell. *)
Definition tied {A S : Type} (lt : S -> S -> bool) (key : A -> S) (s : S)
  (p : A) : bool :=
  negb (lt s (key p)) && negb (lt (key p) s).

(** A call on a remote connection. *)
Definition is_remote_call (e : event) : bool :=
  match e with
  | EvConnect _ _ _ | EvListPath _ _ _ | EvRetrieveFile _ _ _ | EvClose _ => true
  | _ => false
  end.

(** A call on the local file system. *)
Definition is_local_call (e : event) : bool :=
  match e with
  | EvImageOpen _ | EvIsDir _ | EvOsWalk _ => true
  | _ => false
  end.

(** The outcome is an image. *)
Definition is_ok {A : Type} (r : result A) : bool :=
  match r with
  | Ok _ => true
  | Raise _ => false
  end.

(** The folder of pictures of the small world as [os.listdir] shows it, and
    a fit that answers with a label that is no cluster. *)
Module DemoFolder.

#[export] Instance listdir : Listdir := {|
  os_listdir := fun path =>
    if String.eqb path "/pics"
    then Ok ["a.png"; "sub"; "c.jpeg"; "notes.txt"]
    else if String.eqb path "/pics/sub"
    then Ok ["b.JPG"; "readme"]
    else Raise (OSError "No such file or directory")
|}.

Definition stray_sklearn : Sklearn Demo.Emb := {|
  Matrix := list Demo.Emb;
  np_vstack := fun rows => Ok rows;
  KMeans_fit_labels := fun n_clusters _ X => Ok (map (fun _ => n_clusters) X)
|}.

End DemoFolder.

(** * Properties *)

(** ** Strings *)

Lemma split_not_nil (c : ascii) (s : string) : PyStr.split c s <> [].
Proof.
  destruct s as [|a s]; simpl; [discriminate|].
  destruct (Ascii.eqb a c); [discriminate|].
  destruct (PyStr.split c s); discriminate.
Qed.

Lemma split_lacks (c : ascii) (s : string) :
  PyStr.lacks c s -> PyStr.split c s = [s].
Proof.
  induction s as [|a s IH]; simpl; intros Hs; [reflexivity|].
  destruct Hs as [Hac Hs].
  destruct (Ascii.eqb_spec a c) as [->|_]; [contradiction|].
  now rewrite (IH Hs).
Qed.

Lemma split_app_sep (c : ascii) (a s : string) :
  PyStr.lacks c a -> PyStr.split c (a +++ String c s) = a :: PyStr.split c s.
Proof.
  induction a as [|x a IH]; simpl; intros Ha.
  - now rewrite Ascii.eqb_refl.
  - destruct Ha as [Hxc Ha].
    destruct (Ascii.eqb_spec x c) as [->|_]; [contradiction|].
    now rewrite (IH Ha).
Qed.

Lemma join_split (c : ascii) (s : string) :
  PyStr.join (String c "") (PyStr.split c s) = s.
Proof.
  unfold PyStr.join.
  induction s as [|a s IH]; simpl; [reflexivity|].
  destruct (Ascii.eqb_spec a c) as [->|_].
  - pose proof (split_not_nil c s) as Hne.
    destruct (PyStr.split c s) as [|w ws]; [contradiction|].
    simpl in *. now rewrite IH.
  - pose proof (split_not_nil c s) as Hne.
    destruct (PyStr.split c s) as [|w ws]; [contradiction|].
    destruct ws as [|w' ws]; simpl in *; now rewrite <- IH.
Qed.

(** The first component of a split is empty exactly for the empty string
    and for a string that starts with the separator. *)
Lemma split_head_empty (c : ascii) (s : string) :
  hd "" (PyStr.split c s) = "" <->
  s = "" \/ exists s', s = String c s'.
Proof.
  destruct s as [|a s]; simpl.
  - split; auto.
  - destruct (Ascii.eqb_spec a c) as [->|Hac]; simpl.
    + split; eauto.
    + destruct (PyStr.split c s); simpl; split; try discriminate;
        intros [Hd|[s' Hs']]; try discriminate; inversion Hs'; contradiction.
Qed.

Lemma split_length_lt_2 (c : ascii) (s : string) :
  (List.length (PyStr.split c s) < 2)%nat <-> PyStr.lacks c s.
Proof.
  induction s as [|a s IH]; simpl.
  - split; auto.
  - pose proof (split_not_nil c s) as Hne.
    destruct (Ascii.eqb_spec a c) as [->|Hac].
    + destruct (PyStr.split c s); [contradiction|]. simpl.
      split; [lia|]. intros [Hcc _]. contradiction.
    + destruct (PyStr.split c s) as [|w ws]; [contradiction|].
      simpl in *. rewrite IH. tauto.
Qed.

(** ** gui.py: parse_smb_url *)

Example parse_smb_url_path :
  parse_smb_url "smb://ds912.local/images/2024/trip"
  = Ok ("ds912.local", "images", "/2024/trip").
Proof. reflexivity. Qed.

Example parse_smb_url_trailing_slash :
  parse_smb_url "smb://ds912.local/images/" = Ok ("ds912.local", "images", "/").
Proof. reflexivity. Qed.

Example parse_smb_url_no_share :
  parse_smb_url "smb://ds912.local"
  = Raise (ValueError "SMB URL must contain at least server and share").
Proof. reflexivity. Qed.

Example parse_smb_url_only_slashes :
  parse_smb_url "smb:///" = Ok ("", "", "/").
Proof. reflexivity. Qed.

(** An empty first path component hides what follows it: such a URL is not
    of the form [smb://server/share/p1/.../pn] with path components. *)
Example parse_smb_url_empty_first_component :
  parse_smb_url "smb://host/share//deep" = Ok ("host", "share", "/").
Proof. reflexivity. Qed.

(** What [parse_smb_url] computes once the prefix is present and there are
    two components. *)
Lemma parse_smb_url_parts (url server share : string) (rest : list string) :
  PyStr.startswith url "smb://" = true ->
  PyStr.split "/" (PyStr.slice_from 6 url) = server :: share :: rest ->
  parse_smb_url url
  = Ok (server, share,
        if negb (String.eqb (hd "" rest) "")
        then "/" +++ PyStr.join "/" rest else "/").
Proof.
  intros Hpre Hparts. unfold parse_smb_url.
  rewrite Hpre, Hparts. cbn.
  destruct rest as [|p rest]; cbn; [reflexivity|].
  destruct (String.eqb p ""); reflexivity.
Qed.

Lemma parse_smb_url_raises (url : string) (e : exception) :
  parse_smb_url url = Raise e ->
  exists msg, e = ValueError msg.
Proof.
  unfold parse_smb_url.
  destruct (PyStr.startswith url "smb://"); cbn [negb];
    [|intros [= <-]; eauto].
  destruct (PyStr.split "/" (PyStr.slice_from 6 url)) as [|a [|b rest]];
    cbn; try (intros [= <-]; eauto).
  destruct rest as [|p rest]; cbn; [discriminate|].
  destruct (String.eqb p ""); discriminate.
Qed.

Lemma parse_smb_url_raises_iff (url : string) :
  (exists e, parse_smb_url url = Raise e) <->
  PyStr.startswith url "smb://" = false
  \/ (List.length (PyStr.split "/" (PyStr.slice_from 6 url)) < 2)%nat.
Proof.
  split.
  - intros [e He]. unfold parse_smb_url in He.
    destruct (PyStr.startswith url "smb://"); [right|now left].
    cbn [negb] in He.
    destruct (PyStr.split "/" (PyStr.slice_from 6 url)) as [|a [|b rest]];
      cbn in *; try lia.
    destruct rest as [|p rest]; cbn in He; [discriminate|].
    destruct (String.eqb p ""); discriminate.
  - intros [Hpre|Hlen]; unfold parse_smb_url.
    + rewrite Hpre. cbn. eauto.
    + destruct (PyStr.startswith url "smb://"); cbn [negb]; [|eauto].
      apply Nat.ltb_lt in Hlen. rewrite Hlen. eauto.
Qed.

Lemma join_path_components_head (p : string) (ps : list string) :
  path_component p ->
  negb (String.eqb (hd "" (PyStr.split "/" (PyStr.join "/" (p :: ps)))) "") = true.
Proof.
  intros [Hne Hlacks].
  destruct (String.eqb_spec
              (hd "" (PyStr.split "/" (PyStr.join "/" (p :: ps)))) "")
    as [Hhd|_]; [exfalso|reflexivity].
  apply split_head_empty in Hhd.
  destruct p as [|a p]; [now apply Hne|].
  destruct Hlacks as [Ha _].
  unfold PyStr.join in Hhd.
  destruct ps as [|q ps]; cbn in Hhd;
    destruct Hhd as [Hhd|[s' Hhd]]; try discriminate;
    inversion Hhd; subst; now apply Ha.
Qed.

(** C4. [parse_smb_url] raises, and then a [ValueError], exactly when the
    string does not start with "smb://" or has fewer than two
    slash-separated components after that prefix; and on
    [smb://server/share/p1/.../pn] it returns [server], [share] and
    [/p1/.../pn], which is [/] when no path component follows the share. *)
Theorem parse_smb_url_spec :
  (forall url,
     (exists msg, parse_smb_url url = Raise (ValueError msg)) <->
     PyStr.startswith url "smb://" = false
     \/ (List.length (PyStr.split "/" (PyStr.slice_from 6 url)) < 2)%nat)
  /\ (forall url e, parse_smb_url url = Raise e -> exists msg, e = ValueError msg)
  /\ (forall server share ps,
        PyStr.lacks "/" server ->
        PyStr.lacks "/" share ->
        Forall path_component ps ->
        parse_smb_url ("smb://" +++ PyStr.join "/" (server :: share :: ps))
        = Ok (server, share, "/" +++ PyStr.join "/" ps)).
Proof.
  split; [|split].
  - intros url. rewrite <- parse_smb_url_raises_iff. split.
    + intros [msg Hm]. eauto.
    + intros [e He]. destruct (parse_smb_url_raises _ _ He) as [msg ->]. eauto.
  - exact parse_smb_url_raises.
  - intros server share ps Hserver Hshare Hps.
    destruct ps as [|p ps].
    + rewrite (parse_smb_url_parts _ server share []).
      * reflexivity.
      * reflexivity.
      * change (PyStr.split "/" (server +++ String "/" share) = [server; share]).
        rewrite split_app_sep by assumption. now rewrite split_lacks.
    + inversion Hps as [|p' ps' Hp _]; subst.
      rewrite (parse_smb_url_parts _ server share
                 (PyStr.split "/" (PyStr.join "/" (p :: ps)))).
      * now rewrite join_split, join_path_components_head.
      * reflexivity.
      * change (PyStr.split "/"
                  (server +++ String "/" (share +++
                     String "/" (PyStr.join "/" (p :: ps))))
                = server :: share :: PyStr.split "/" (PyStr.join "/" (p :: ps))).
        now rewrite !split_app_sep by assumption.
Qed.

(** The statement at [smb://nas/photos/2024/trip], and at a URL without a
    share. *)
Lemma parse_smb_url_spec_witness :
  parse_smb_url "smb://nas/photos/2024/trip" = Ok ("nas", "photos", "/2024/trip")
  /\ (exists msg, parse_smb_url "smb://nas" = Raise (ValueError msg)).
Proof.
  split.
  - apply (proj2 (proj2 parse_smb_url_spec) "nas" "photos" ["2024"; "trip"]).
    + cbn. repeat split; discriminate.
    + cbn. repeat split; discriminate.
    + repeat constructor; cbn; try discriminate.
  - apply (proj1 parse_smb_url_spec "smb://nas"). right. cbn. lia.
Defined.

(** ** Dictionaries *)

Section DictFacts.
Context {K V : Type} `{PyKey K}.
Implicit Types (d : dict K V) (k : K) (v : V).

Lemma key_eqb_refl k : key_eqb k k = true.
Proof. destruct (key_eqb_spec k k); congruence. Qed.

Lemma key_eqb_neq k k' : k <> k' -> key_eqb k k' = false.
Proof. intros Hne. destruct (key_eqb_spec k k'); congruence. Qed.

Lemma dict_keys_set d k v k' :
  In k' (dict_keys (dict_set d k v)) <-> k' = k \/ In k' (dict_keys d).
Proof.
  induction d as [|[k0 v0] d IH]; cbn.
  - intuition congruence.
  - destruct (key_eqb_spec k0 k) as [->|Hne]; cbn.
    + intuition congruence.
    + unfold dict_keys in IH. rewrite IH. intuition congruence.
Qed.

Lemma dict_set_fresh d k v :
  ~ In k (dict_keys d) -> dict_set d k v = d ++ [(k, v)].
Proof.
  induction d as [|[k0 v0] d IH]; cbn; intros Hk; [reflexivity|].
  rewrite key_eqb_neq by intuition congruence.
  now rewrite IH by intuition.
Qed.

Lemma dict_set_wf d k v : dict_wf d -> dict_wf (dict_set d k v).
Proof.
  unfold dict_wf.
  induction d as [|[k0 v0] d IH]; cbn; intros Hwf.
  - constructor; [intros []|constructor].
  - inversion Hwf as [|? ? Hk0 Hd]; subst.
    destruct (key_eqb_spec k0 k) as [->|Hne]; cbn.
    + now constructor.
    + constructor; [|now apply IH].
      intros Hin. apply (dict_keys_set d k v k0) in Hin.
      destruct Hin as [->|Hin]; [congruence|now apply Hk0].
Qed.

Lemma dict_get_set_same d k v : dict_get (dict_set d k v) k = Some v.
Proof.
  induction d as [|[k0 v0] d IH]; cbn.
  - now rewrite key_eqb_refl.
  - destruct (key_eqb k0 k) eqn:E; cbn; now rewrite E.
Qed.

Lemma dict_get_set_other d k v k' :
  k' <> k -> dict_get (dict_set d k v) k' = dict_get d k'.
Proof.
  intros Hne.
  induction d as [|[k0 v0] d IH]; cbn.
  - now rewrite key_eqb_neq by congruence.
  - destruct (key_eqb_spec k0 k) as [->|Hk0]; cbn.
    + now rewrite !key_eqb_neq by congruence.
    + now rewrite IH.
Qed.

Lemma dict_get_in_keys d k : dict_get d k <> None <-> In k (dict_keys d).
Proof.
  induction d as [|[k0 v0] d IH]; cbn.
  - tauto.
  - destruct (key_eqb_spec k0 k) as [->|Hne].
    + split; [auto|discriminate].
    + rewrite IH. unfold dict_keys. intuition congruence.
Qed.

Lemma dict_get_none d k : dict_get d k = None <-> ~ In k (dict_keys d).
Proof.
  rewrite <- dict_get_in_keys. destruct (dict_get d k); split; intros Hx;
    try congruence; try (exfalso; apply Hx; discriminate).
Qed.

End DictFacts.

(** A loop that assigns [f v] at every key of a dictionary rebuilds the
    dictionary with [f] applied to its values. *)
Lemma fold_dict_set_map {V W : Type} (f : V -> W) (d : dict string V)
  (acc : dict string W) :
  dict_wf d ->
  (forall k, In k (dict_keys d) -> ~ In k (dict_keys acc)) ->
  fold_left (fun (acc : dict string W) '(k, v) => dict_set acc k (f v)) d acc
  = acc ++ map (fun '(k, v) => (k, f v)) d.
Proof.
  revert acc. unfold dict_wf.
  induction d as [|[k v] d IH]; cbn; intros acc Hwf Hfresh.
  - now rewrite app_nil_r.
  - inversion Hwf as [|? ? Hk Hd]; subst.
    rewrite dict_set_fresh by (apply Hfresh; now left).
    rewrite IH; [now rewrite <- app_assoc| assumption |].
    intros k' Hk' Hin. unfold dict_keys in Hin.
    rewrite map_app, in_app_iff in Hin. destruct Hin as [Hin|[<-|[]]].
    + now apply (Hfresh k'); [right|].
    + contradiction.
Qed.

Lemma dict_keys_map_values {V W : Type} (f : V -> W) (d : dict string V) :
  dict_keys (map (fun '(k, v) => (k, f v)) d) = dict_keys d.
Proof.
  unfold dict_keys. rewrite map_map. apply map_ext. now intros [k v].
Qed.

Lemma dict_get_map_values {V W : Type} (f : V -> W) (d : dict string V) k :
  dict_get (map (fun '(k, v) => (k, f v)) d) k = option_map f (dict_get d k).
Proof.
  induction d as [|[k0 v0] d IH]; cbn; [reflexivity|].
  now destruct (String.eqb k0 k).
Qed.

(** ** src/image_embeddings.py *)

Section ImageEmbeddingsFacts.
Context {Image Emb : Type} `{Clip Image Emb}.

Lemma get_image_embeddings_map (images_dict : dict string Image) :
  dict_wf images_dict ->
  get_image_embeddings images_dict
  = map (fun '(filename, img) => (filename, encode_image img)) images_dict.
Proof.
  intros Hwf. unfold get_image_embeddings.
  now rewrite (fold_dict_set_map encode_image) by auto.
Qed.

End ImageEmbeddingsFacts.

(** ** Sorting *)

Section SortingFacts.
Context {A : Type} (lt : A -> A -> bool).
Hypothesis lt_order : strict_weak_order lt.

(** [a] is not after [b] in ascending order. *)
Local Abbreviation ascending := (fun a b : A => lt b a = false).

Lemma insert_stable_perm (x : A) (l : list A) :
  Permutation (insert_stable lt x l) (x :: l).
Proof.
  induction l as [|y l IH]; cbn; [reflexivity|].
  destruct (lt y x); [|reflexivity].
  rewrite IH. apply perm_swap.
Qed.

Lemma sort_stable_perm (l : list A) : Permutation (sort_stable lt l) l.
Proof.
  induction l as [|x l IH]; cbn; [reflexivity|].
  rewrite insert_stable_perm. now constructor.
Qed.

Lemma insert_stable_sorted (x : A) (l : list A) :
  StronglySorted ascending l -> StronglySorted ascending (insert_stable lt x l).
Proof.
  destruct lt_order as [Hasym Htrans].
  induction l as [|y l IH]; cbn; intros Hl.
  - repeat constructor.
  - inversion Hl as [|? ? Hs Hy]; subst.
    destruct (lt y x) eqn:Hyx.
    + constructor; [now apply IH|].
      rewrite Forall_forall in *. intros z Hz.
      apply (Permutation_in _ (insert_stable_perm x l)) in Hz.
      destruct Hz as [<-|Hz]; [now apply Hasym|now apply Hy].
    + constructor; [assumption|].
      constructor; [exact Hyx|].
      rewrite Forall_forall in *. intros z Hz.
      cbv beta. eapply Htrans; [apply Hy, Hz|exact Hyx].
Qed.

Lemma sort_stable_sorted (l : list A) :
  StronglySorted ascending (sort_stable lt l).
Proof.
  induction l as [|x l IH]; cbn; [constructor|now apply insert_stable_sorted].
Qed.

End SortingFacts.

(** The same when [lt] is an order on the elements at hand only. *)
Section SortingOn.
Context {A : Type} (lt : A -> A -> bool) (dom : A -> Prop).
Hypothesis lt_asym :
  forall a b, dom a -> dom b -> lt a b = true -> lt b a = false.
Hypothesis lt_trans :
  forall a b c, dom a -> dom b -> dom c ->
                lt a b = false -> lt b c = false -> lt a c = false.

Local Abbreviation ascending := (fun a b : A => lt b a = false).

Lemma insert_stable_sorted_on (x : A) (l : list A) :
  dom x -> Forall dom l ->
  StronglySorted ascending l -> StronglySorted ascending (insert_stable lt x l).
Proof.
  intros Hx. induction l as [|y l IH]; cbn; intros Hdom Hl.
  - repeat constructor.
  - inversion Hl as [|? ? Hs Hy]; subst.
    inversion Hdom as [|? ? Hdy Hdl]; subst.
    destruct (lt y x) eqn:Hyx.
    + constructor; [now apply IH|].
      rewrite Forall_forall in *. intros z Hz.
      apply (Permutation_in _ (insert_stable_perm lt x l)) in Hz.
      destruct Hz as [<-|Hz]; [now apply lt_asym|now apply Hy].
    + constructor; [assumption|].
      constructor; [exact Hyx|].
      rewrite Forall_forall in *. intros z Hz.
      cbv beta. apply (lt_trans z y x); auto.
Qed.

Lemma sort_stable_sorted_on (l : list A) :
  Forall dom l -> StronglySorted ascending (sort_stable lt l).
Proof.
  induction l as [|x l IH]; cbn; intros Hdom; [constructor|].
  inversion Hdom as [|? ? Hx Hl]; subst.
  apply insert_stable_sorted_on; [assumption| |now apply IH].
  rewrite Forall_forall in *. intros z Hz. apply Hl.
  now apply (Permutation_in _ (sort_stable_perm lt l)).
Qed.

End SortingOn.

Lemma StronglySorted_app {A : Type} (R : A -> A -> Prop) (l1 l2 : list A) :
  StronglySorted R l1 -> StronglySorted R l2 ->
  (forall a b, In a l1 -> In b l2 -> R a b) ->
  StronglySorted R (l1 ++ l2).
Proof.
  induction l1 as [|x l1 IH]; cbn; intros H1 H2 H12; [assumption|].
  inversion H1 as [|? ? Hs Hx]; subst.
  constructor.
  - apply IH; auto.
  - rewrite Forall_forall in *. intros z Hz.
    apply in_app_iff in Hz. destruct Hz; auto.
Qed.

Lemma StronglySorted_rev {A : Type} (R : A -> A -> Prop) (l : list A) :
  StronglySorted R l -> StronglySorted (fun a b => R b a) (rev l).
Proof.
  induction 1 as [|x l Hs IH Hx]; cbn; [constructor|].
  apply StronglySorted_app; [assumption|repeat constructor|].
  intros a b Ha [<-|[]]. rewrite Forall_forall in Hx.
  apply Hx. now apply in_rev.
Qed.

(** [sorted(l, key=key, reverse=True)] is a rearrangement of [l] in which no
    element is followed by one with a greater key. *)
Lemma sorted_reverse_spec {A S : Type} (ltS : S -> S -> bool) (key : A -> S)
  (l : list A) :
  strict_weak_order ltS ->
  Permutation (sorted ltS key true l) l
  /\ StronglySorted (fun a b => ltS (key a) (key b) = false)
                    (sorted ltS key true l).
Proof.
  intros [Hasym Htrans]. unfold sorted. split.
  - rewrite <- Permutation_rev, sort_stable_perm. symmetry. apply Permutation_rev.
  - apply (StronglySorted_rev (fun a b => ltS (key b) (key a) = false)).
    apply sort_stable_sorted. split; eauto.
Qed.

Lemma sorted_reverse_on {A S : Type} (ltS : S -> S -> bool) (key : A -> S)
  (l : list A) :
  weak_order_on ltS (map key l) ->
  Permutation (sorted ltS key true l) l
  /\ StronglySorted (fun a b => ltS (key a) (key b) = false)
                    (sorted ltS key true l).
Proof.
  intros [Hasym Htrans]. unfold sorted. split.
  - rewrite <- Permutation_rev, sort_stable_perm. symmetry. apply Permutation_rev.
  - apply (StronglySorted_rev (fun a b => ltS (key b) (key a) = false)).
    apply (sort_stable_sorted_on (fun a b => ltS (key a) (key b))
             (fun a => In a l)).
    + intros a b Ha Hb. apply Hasym; now apply in_map.
    + intros a b c Ha Hb Hc. apply Htrans; now apply in_map.
    + apply Forall_forall. intros a Ha. now apply in_rev.
Qed.

(** ** Slices *)

Lemma slice_to_nonneg {A : Type} (l : list A) (k : Z) :
  (0 <= k)%Z -> slice_to l k = firstn (Z.to_nat k) l.
Proof. intros Hk. unfold slice_to. now rewrite (proj2 (Z.leb_le 0 k) Hk). Qed.

Lemma slice_to_length {A : Type} (l : list A) (k : Z) :
  (0 <= k)%Z -> (Z.of_nat (List.length (slice_to l k)) <= k)%Z.
Proof.
  intros Hk. rewrite slice_to_nonneg by assumption.
  rewrite length_firstn. lia.
Qed.

(** ** src/search.py *)

Section SearchFacts.
Context {Emb Score : Type} `{Numpy Emb Score}.

Lemma similarities_scored (text_embedding : Emb)
  (image_embeddings : dict string Emb) :
  dict_wf image_embeddings ->
  fold_left
    (fun (similarities : dict string Score) '(filename, img_embedding) =>
       let sim := cosine_similarity text_embedding img_embedding in
       dict_set similarities filename sim)
    image_embeddings []
  = scored text_embedding image_embeddings.
Proof.
  intros Hwf.
  now rewrite (fold_dict_set_map (cosine_similarity text_embedding)) by auto.
Qed.

(** C1, as amended. Take the entries of the map, every filename paired
    with the quotient of the dot product of the text embedding and the
    transposed image embedding by the product of the two norms. When these
    scores compare with each other as numbers do (none of them is a NaN)
    and [top_k] is not negative, [search_similar_images] returns the first
    [top_k] entries of a ranking of them: every entry exactly once, no
    entry followed by one with a greater score; so at most [top_k] results
    come back. Nothing is said of the order among equal scores. *)
Theorem search_similar_images_top_k (text_embedding : Emb)
  (image_embeddings : dict string Emb) (top_k : Z) :
  let entries :=
    map (fun '(filename, img_embedding) =>
           (filename,
            score_div (np_dot text_embedding (np_T img_embedding))
                      (score_mul (np_linalg_norm text_embedding)
                                 (np_linalg_norm img_embedding))))
        image_embeddings in
  weak_order_on score_lt (map snd entries) ->
  dict_wf image_embeddings ->
  (0 <= top_k)%Z ->
  exists ranked : list (string * Score),
    Permutation ranked entries
    /\ StronglySorted (fun a b => score_lt (snd a) (snd b) = false) ranked
    /\ search_similar_images text_embedding image_embeddings top_k
       = firstn (Z.to_nat top_k) ranked
    /\ (Z.of_nat (List.length
          (search_similar_images text_embedding image_embeddings top_k))
        <= top_k)%Z.
Proof.
  intros entries Horder Hwf Hk.
  unfold search_similar_images.
  rewrite similarities_scored by assumption.
  change (scored text_embedding image_embeddings) with entries.
  destruct (sorted_reverse_on score_lt snd entries Horder) as [Hperm Hsorted].
  eexists. split; [exact Hperm|]. split; [exact Hsorted|].
  split; [now apply slice_to_nonneg|now apply slice_to_length].
Qed.

End SearchFacts.

(** ** src/clustering.py *)

Lemma comprehension_keys {V : Type} (f : string -> result V) (d : dict string V) :
  (forall k v, In (k, v) d -> f k = Ok v) ->
  comprehension f (dict_keys d) = Ok (map snd d).
Proof.
  unfold dict_keys.
  induction d as [|[k v] d IH]; cbn; intros Hf; [reflexivity|].
  rewrite (Hf k v) by now left. cbn.
  rewrite IH by (intros; apply Hf; now right). reflexivity.
Qed.

Lemma dict_index_wf {V : Type} (d : dict string V) (k : string) (v : V) :
  dict_wf d -> In (k, v) d -> dict_index d k = Ok v.
Proof.
  unfold dict_wf, dict_index.
  induction d as [|[k0 v0] d IH]; cbn; intros Hwf Hin; [contradiction|].
  inversion Hwf as [|? ? Hk0 Hd]; subst.
  destruct Hin as [[= -> ->]|Hin].
  - now rewrite String.eqb_refl.
  - destruct (String.eqb_spec k0 k) as [->|_]; [|now apply IH].
    exfalso. apply Hk0. now apply (in_map fst) in Hin.
Qed.

Section TableFacts.
Context {V : Type}.
Implicit Types (g : Z -> V) (range : list Z).

Lemma table_keys g range : dict_keys (table g range) = range.
Proof.
  unfold dict_keys, table. rewrite map_map. cbn. apply map_id.
Qed.

Lemma table_get_in g range i :
  In i range -> dict_get (table g range) i = Some (g i).
Proof.
  unfold table.
  induction range as [|j range IH]; cbn; intros Hin; [contradiction|].
  destruct (Z.eqb_spec j i) as [->|Hne]; [reflexivity|].
  apply IH. destruct Hin; [contradiction|assumption].
Qed.

Lemma table_get_some g range i v :
  dict_get (table g range) i = Some v -> In i range /\ v = g i.
Proof.
  unfold table.
  induction range as [|j range IH]; cbn; [discriminate|].
  destruct (Z.eqb_spec j i) as [->|Hne].
  - intros [= <-]. auto.
  - intros Hget. destruct (IH Hget). auto.
Qed.

Lemma table_set_in g range i v :
  NoDup range -> In i range ->
  dict_set (table g range) i v
  = table (fun j => if Z.eqb j i then v else g j) range.
Proof.
  unfold table.
  induction range as [|j range IH]; cbn; intros Hnd Hin; [contradiction|].
  inversion Hnd as [|? ? Hj Hr]; subst.
  destruct (Z.eqb_spec j i) as [->|Hne].
  - f_equal. apply map_ext_in. intros a Ha.
    destruct (Z.eqb_spec a i) as [->|_]; [contradiction|reflexivity].
  - rewrite IH; [reflexivity|assumption|].
    destruct Hin; [contradiction|assumption].
Qed.

End TableFacts.

Lemma py_range_NoDup (n : Z) : NoDup (py_range n).
Proof.
  unfold py_range. apply Finite.Injective_map_NoDup; [|apply seq_NoDup].
  intros a b. apply Nat2Z.inj.
Qed.

Lemma py_range_In (n i : Z) : In i (py_range n) <-> (0 <= i < n)%Z.
Proof.
  unfold py_range. rewrite in_map_iff. split.
  - intros [k [<- Hk]]. apply in_seq in Hk. lia.
  - intros Hi. exists (Z.to_nat i). rewrite in_seq. lia.
Qed.

Lemma py_range_length (n : Z) :
  (0 <= n)%Z -> Z.of_nat (List.length (py_range n)) = n.
Proof. intros Hn. unfold py_range. rewrite length_map, length_seq. lia. Qed.

(** The loop of [cluster_images] appends every filename to the group of its
    label. *)
Lemma cluster_loop (pairs : list (string * Z)) (range : list Z)
  (g : Z -> list string) :
  NoDup range ->
  Forall (fun p => In (snd p) range) pairs ->
  for_result pairs
    (fun (clusters : dict Z (list string)) '(filename, label) =>
       (let? group := dict_index clusters label in
        Ok (dict_set clusters label (group ++ [filename])))%result)
    (table g range)
  = Ok (table (fun i => g i ++ grouped pairs i) range).
Proof.
  intros Hnd. revert g.
  induction pairs as [|[filename label] pairs IH]; intros g Hin.
  - cbn. f_equal. apply map_ext. intros i. unfold grouped. cbn.
    now rewrite app_nil_r.
  - inversion Hin as [|? ? Hl Hrest]; subst. cbn in Hl.
    cbn [for_result]. unfold dict_index at 1.
    rewrite table_get_in by assumption.
    cbn [rbind]. rewrite table_set_in by assumption.
    rewrite IH by assumption. f_equal. apply map_ext. intros i.
    unfold grouped. cbn [filter snd].
    rewrite (Z.eqb_sym i label).
    destruct (Z.eqb_spec label i) as [->|_]; cbn;
      [now rewrite <- app_assoc|reflexivity].
Qed.

Lemma grouped_In (pairs : list (string * Z)) (i : Z) (filename : string) :
  In filename (grouped pairs i) <-> In (filename, i) pairs.
Proof.
  unfold grouped. rewrite in_map_iff. split.
  - intros [[f l] [<- Hf]]. apply filter_In in Hf. cbn in *.
    destruct Hf as [Hf Hl]. apply Z.eqb_eq in Hl. now subst.
  - intros Hin. exists (filename, i). split; [reflexivity|].
    apply filter_In. split; [assumption|apply Z.eqb_refl].
Qed.

Lemma grouped_NoDup (pairs : list (string * Z)) (i : Z) :
  NoDup (map fst pairs) -> NoDup (grouped pairs i).
Proof.
  unfold grouped.
  induction pairs as [|[f l] pairs IH]; cbn; intros Hnd; [constructor|].
  inversion Hnd as [|? ? Hf Hp]; subst.
  destruct (Z.eqb l i); cbn; [|now apply IH].
  constructor; [|now apply IH].
  intros Hin. apply Hf. apply in_map_iff in Hin.
  destruct Hin as [p [Hp1 Hp2]]. apply filter_In in Hp2.
  apply in_map_iff. exists p. tauto.
Qed.

Lemma combine_fst {A B : Type} (l : list A) (l' : list B) :
  List.length l = List.length l' -> map fst (combine l l') = l.
Proof.
  revert l'. induction l as [|a l IH]; intros [|b l']; cbn; intros Hlen;
    try discriminate; [reflexivity|].
  f_equal. apply IH. congruence.
Qed.

Lemma combine_snd {A B : Type} (l : list A) (l' : list B) :
  List.length l = List.length l' -> map snd (combine l l') = l'.
Proof.
  revert l'. induction l as [|a l IH]; intros [|b l']; cbn; intros Hlen;
    try discriminate; [reflexivity|].
  f_equal. apply IH. congruence.
Qed.

Lemma NoDup_keys_functional {A B : Type} (l : list (A * B)) (a : A) (b b' : B) :
  NoDup (map fst l) -> In (a, b) l -> In (a, b') l -> b = b'.
Proof.
  induction l as [|[a0 b0] l IH]; cbn; intros Hnd Hb Hb'; [contradiction|].
  inversion Hnd as [|? ? Ha0 Hl]; subst.
  destruct Hb as [Hb|Hb], Hb' as [Hb'|Hb'];
    try (injection Hb as -> ->); try (injection Hb' as -> ->).
  - congruence.
  - exfalso. apply Ha0. now apply (in_map fst) in Hb'.
  - exfalso. apply Ha0. now apply (in_map fst) in Hb.
  - now apply IH.
Qed.

(** Without a group there is no partition of a non-empty map. *)
Lemma is_partition_positive {Emb : Type} (image_embeddings : dict string Emb)
  (num_clusters : Z) (clusters : dict Z (list string)) :
  image_embeddings <> [] ->
  is_partition image_embeddings num_clusters clusters ->
  (0 < num_clusters)%Z.
Proof.
  intros Hne [Hkeys [_ [Hin _]]].
  destruct image_embeddings as [|[filename e] rest]; [contradiction|].
  destruct (Hin filename) as [i [group [Hget _]]]; [now left|].
  assert (Hi : In i (py_range num_clusters)).
  { rewrite <- Hkeys. apply dict_get_in_keys. congruence. }
  apply py_range_In in Hi. lia.
Qed.

Lemma table_get_not_in {V : Type} (g : Z -> V) (range : list Z) (i : Z) :
  ~ In i range -> dict_get (table g range) i = None.
Proof.
  intros Hi. apply dict_get_none. now rewrite table_keys.
Qed.

(** The loop of [cluster_images] on any labels: it ends with every filename
    in the group of its label, or it raises at the first label that is no
    key. *)
Lemma cluster_loop_cases (pairs : list (string * Z)) (range : list Z)
  (g : Z -> list string) :
  NoDup range ->
  let loop :=
    for_result pairs
      (fun (clusters : dict Z (list string)) '(filename, label) =>
         (let? group := dict_index clusters label in
          Ok (dict_set clusters label (group ++ [filename])))%result)
      (table g range) in
  (Forall (fun p => In (snd p) range) pairs
   /\ loop = Ok (table (fun i => g i ++ grouped pairs i) range))
  \/ (Exists (fun p => ~ In (snd p) range) pairs
      /\ loop = Raise (KeyError "key")).
Proof.
  intros Hnd. cbv zeta. revert g.
  induction pairs as [|[filename label] pairs IH]; intros g.
  - left. split; [constructor|].
    now rewrite (cluster_loop [] range g Hnd) by constructor.
  - destruct (in_dec Z.eq_dec label range) as [Hin|Hout].
    + cbn [for_result]. unfold dict_index at 1 3.
      rewrite table_get_in by assumption. cbn [rbind].
      rewrite table_set_in by assumption.
      destruct (IH (fun j => if Z.eqb j label then g label ++ [filename]
                             else g j)) as [[Hall Hloop]|[Hex Hloop]].
      * left. split; [now constructor|].
        rewrite Hloop. f_equal. apply map_ext. intros i.
        unfold grouped. cbn [filter snd]. rewrite (Z.eqb_sym i label).
        destruct (Z.eqb_spec label i) as [->|_]; cbn;
          [now rewrite <- app_assoc|reflexivity].
      * right. split; [now apply Exists_cons_tl|exact Hloop].
    + right. split; [now apply Exists_cons_hd|].
      cbn [for_result]. unfold dict_index.
      now rewrite table_get_not_in by assumption.
Qed.

Section ClusteringFacts.
Context {Emb : Type} `{Sklearn Emb}.

(** What [cluster_images] does once the fit has answered. *)
Lemma cluster_images_fitted (image_embeddings : dict string Emb)
  (num_clusters : Z) (X : Matrix) (labels : list Z) :
  dict_wf image_embeddings ->
  np_vstack (map snd image_embeddings) = Ok X ->
  KMeans_fit_labels num_clusters 0 X = Ok labels ->
  let pairs := combine (dict_keys image_embeddings) labels in
  (Forall (fun p => In (snd p) (py_range num_clusters)) pairs
   /\ cluster_images image_embeddings num_clusters
      = Ok (table (grouped pairs) (py_range num_clusters)))
  \/ (Exists (fun p => ~ In (snd p) (py_range num_clusters)) pairs
      /\ cluster_images image_embeddings num_clusters = Raise (KeyError "key")).
Proof.
  intros Hwf Hstack Hfit pairs. unfold cluster_images.
  rewrite (comprehension_keys (dict_index image_embeddings))
    by (intros; now apply dict_index_wf).
  cbn [rbind]. rewrite Hstack. cbn [rbind]. rewrite Hfit. cbn [rbind].
  apply (cluster_loop_cases pairs (py_range num_clusters) (fun _ => [])).
  apply py_range_NoDup.
Qed.

(** On a non-empty map, whenever the [KMeans] fit answers with one label
    in [0 .. num_clusters - 1] for every row, [cluster_images] returns a
    partition of the filenames. *)
Lemma cluster_images_labelled (image_embeddings : dict string Emb)
  (num_clusters : Z) (X : Matrix) (labels : list Z) :
  dict_wf image_embeddings ->
  image_embeddings <> [] ->
  np_vstack (map snd image_embeddings) = Ok X ->
  KMeans_fit_labels num_clusters 0 X = Ok labels ->
  List.length labels = List.length image_embeddings ->
  Forall (fun label => 0 <= label < num_clusters)%Z labels ->
  exists clusters : dict Z (list string),
    cluster_images image_embeddings num_clusters = Ok clusters
    /\ is_partition image_embeddings num_clusters clusters.
Proof.
  intros Hwf Hne Hstack Hfit Hlen Hlabels.
  set (filenames := dict_keys image_embeddings).
  set (pairs := combine filenames labels).
  assert (Hfst : map fst pairs = filenames).
  { apply combine_fst. unfold filenames, dict_keys. now rewrite length_map. }
  assert (Hsnd : map snd pairs = labels).
  { apply combine_snd. unfold filenames, dict_keys. now rewrite length_map. }
  assert (Hrange : Forall (fun p => In (snd p) (py_range num_clusters)) pairs).
  { rewrite Forall_forall in *. intros p Hp. apply py_range_In.
    apply Hlabels. rewrite <- Hsnd. now apply in_map. }
  exists (table (fun i => grouped pairs i) (py_range num_clusters)).
  split; [|split; [|split; [|split]]].
  - unfold cluster_images.
    rewrite (comprehension_keys (dict_index image_embeddings))
      by (intros; now apply dict_index_wf).
    cbn [rbind]. rewrite Hstack. cbn [rbind]. rewrite Hfit. cbn [rbind].
    apply (cluster_loop pairs (py_range num_clusters) (fun _ => []));
      [apply py_range_NoDup|assumption].
  - apply table_keys.
  - unfold table. rewrite length_map. apply py_range_length.
    destruct labels as [|label labels'].
    + destruct image_embeddings; [contradiction|discriminate].
    + inversion Hlabels; subst. lia.
  - intros filename Hin. fold filenames in Hin. rewrite <- Hfst in Hin.
    apply in_map_iff in Hin. destruct Hin as [[f label] [Hf Hp]].
    cbn in Hf. subst f.
    exists label, (grouped pairs label). split; [|split].
    + apply table_get_in. rewrite Forall_forall in Hrange.
      apply (Hrange _ Hp).
    + apply NoDup_count_occ'.
      * apply grouped_NoDup. rewrite Hfst. exact Hwf.
      * now apply grouped_In.
    + intros j group' Hget Hin. apply table_get_some in Hget.
      destruct Hget as [_ ->]. apply grouped_In in Hin.
      apply (NoDup_keys_functional pairs filename); [|assumption..].
      rewrite Hfst. exact Hwf.
  - intros j group' filename Hget Hin. apply table_get_some in Hget.
    destruct Hget as [_ ->]. apply grouped_In in Hin.
    fold filenames. rewrite <- Hfst. now apply (in_map fst) in Hin.
Qed.

(** C2, as amended. On a non-empty map: whenever the [KMeans] fit answers
    with one label in [0 .. num_clusters - 1] for every row,
    [cluster_images] returns a dictionary whose keys are exactly
    [0 .. num_clusters - 1], and every filename of the map is in exactly
    one group, once, the groups holding nothing else; whenever [np.vstack]
    or the fit raises, [cluster_images] raises the same exception; and
    whenever the fit pairs a filename with a label outside
    [0 .. num_clusters - 1], [cluster_images] raises a [KeyError]. *)
Theorem cluster_images_partition (image_embeddings : dict string Emb)
  (num_clusters : Z) :
  dict_wf image_embeddings ->
  image_embeddings <> [] ->
  (forall (X : Matrix) (labels : list Z),
     np_vstack (map snd image_embeddings) = Ok X ->
     KMeans_fit_labels num_clusters 0 X = Ok labels ->
     List.length labels = List.length image_embeddings ->
     Forall (fun label => 0 <= label < num_clusters)%Z labels ->
     exists clusters : dict Z (list string),
       cluster_images image_embeddings num_clusters = Ok clusters
       /\ is_partition image_embeddings num_clusters clusters)
  /\ (forall e,
        np_vstack (map snd image_embeddings) = Raise e ->
        cluster_images image_embeddings num_clusters = Raise e)
  /\ (forall (X : Matrix) e,
        np_vstack (map snd image_embeddings) = Ok X ->
        KMeans_fit_labels num_clusters 0 X = Raise e ->
        cluster_images image_embeddings num_clusters = Raise e)
  /\ (forall (X : Matrix) (labels : list Z) filename label,
        np_vstack (map snd image_embeddings) = Ok X ->
        KMeans_fit_labels num_clusters 0 X = Ok labels ->
        In (filename, label) (combine (dict_keys image_embeddings) labels) ->
        ~ (0 <= label < num_clusters)%Z ->
        exists msg,
          cluster_images image_embeddings num_clusters = Raise (KeyError msg)).
Proof.
  intros Hwf Hne.
  assert (Hrows : comprehension (dict_index image_embeddings)
                                (dict_keys image_embeddings)
                  = Ok (map snd image_embeddings)).
  { apply comprehension_keys. intros; now apply dict_index_wf. }
  split; [|split; [|split]].
  - intros X labels. now apply cluster_images_labelled.
  - intros e Hstack. unfold cluster_images.
    rewrite Hrows. cbn [rbind]. now rewrite Hstack.
  - intros X e Hstack Hfit. unfold cluster_images.
    rewrite Hrows. cbn [rbind]. rewrite Hstack. cbn [rbind]. now rewrite Hfit.
  - intros X labels filename label Hstack Hfit Hpair Hout.
    destruct (cluster_images_fitted image_embeddings num_clusters X labels
                Hwf Hstack Hfit) as [[Hall _]|[_ Hraise]]; [|eauto].
    exfalso. apply Hout. rewrite Forall_forall in Hall.
    apply py_range_In. apply (Hall _ Hpair).
Qed.

End ClusteringFacts.

(** ** Computations with a trace *)

Lemma value_bind {A B : Type} (m : io A) (k : A -> io B) :
  value (bind m k) = value (k (value m)).
Proof.
  unfold value, bind. destruct m as [t1 a]. cbn. now destruct (k a).
Qed.

Lemma trace_bind {A B : Type} (m : io A) (k : A -> io B) :
  trace (bind m k) = trace m ++ trace (k (value m)).
Proof.
  unfold trace, value, bind. destruct m as [t1 a]. cbn. now destruct (k a).
Qed.

Lemma io_eta {A : Type} (m : io A) : m = (trace m, value m).
Proof. now destruct m. Qed.

(** A loop whose calls do not depend on the loop's variables: the trace is
    the calls of every round, the value is a fold. *)
Lemma for_each_split {A S : Type} (calls : A -> list event) (step : S -> A -> S)
  (body : S -> A -> io S) (l : list A) (s : S) :
  (forall s a, In a l -> body s a = (calls a, step s a)) ->
  for_each l body s = (flat_map calls l, fold_left step l s).
Proof.
  revert s. induction l as [|a l IH]; intros s Hbody; [reflexivity|].
  cbn [for_each flat_map fold_left].
  rewrite Hbody by now left. unfold bind.
  rewrite IH by (intros; apply Hbody; now right). reflexivity.
Qed.

(** ** gui.py: what the loader loads *)

Section LoadAllFacts.
Context {Image : Type} (fetch : string -> result Image).
Implicit Types (images : dict string Image) (keys : list string).

Lemma store_wf images key : dict_wf images -> dict_wf (store fetch images key).
Proof.
  unfold store. destruct (fetch key); [apply dict_set_wf|auto].
Qed.

Lemma load_all_wf keys images :
  dict_wf images -> dict_wf (load_all fetch keys images).
Proof.
  revert images. unfold load_all.
  induction keys as [|k keys IH]; cbn; intros images Hwf; [assumption|].
  apply IH. now apply store_wf.
Qed.

Lemma load_all_loaded keys images key img :
  In key keys -> fetch key = Ok img ->
  dict_get (load_all fetch keys images) key = Some img.
Proof.
  revert images. unfold load_all.
  induction keys as [|k keys IH]; cbn; intros images Hin Hfetch; [contradiction|].
  destruct (in_dec string_dec key keys) as [Hlater|Hlast].
  - now apply IH.
  - destruct Hin as [->|Hin]; [|contradiction].
    clear IH. unfold store at 2. rewrite Hfetch.
    generalize (dict_get_set_same images key img).
    generalize (dict_set images key img). clear images.
    induction keys as [|k keys IH]; cbn; intros images Hget; [assumption|].
    apply IH; [now intros Hx; apply Hlast; right|].
    unfold store. destruct (fetch k); [|assumption].
    rewrite dict_get_set_other; [assumption|].
    intros ->. apply Hlast. now left.
Qed.

Lemma load_all_skipped keys images key :
  (~ In key keys \/ exists e, fetch key = Raise e) ->
  dict_get (load_all fetch keys images) key = dict_get images key.
Proof.
  revert images. unfold load_all.
  induction keys as [|k keys IH]; cbn; intros images Hkey; [reflexivity|].
  rewrite IH by (destruct Hkey as [Hnot|Hraise]; [left; tauto|now right]).
  unfold store. destruct (fetch k) as [img|e] eqn:Hk; [|reflexivity].
  apply dict_get_set_other. intros ->.
  destruct Hkey as [Hnot|[e He]]; [apply Hnot; now left|congruence].
Qed.

Lemma load_all_keys keys images key :
  In key (dict_keys (load_all fetch keys images)) ->
  In key (dict_keys images) \/ In key keys.
Proof.
  revert images. unfold load_all.
  induction keys as [|k keys IH]; cbn; intros images Hin; [now left|].
  apply IH in Hin. destruct Hin as [Hin|Hin]; [|tauto].
  unfold store in Hin. destruct (fetch k); [|tauto].
  apply dict_keys_set in Hin. destruct Hin as [->|Hin]; tauto.
Qed.

End LoadAllFacts.

Lemma fold_left_flat_map {A B S : Type} (f : S -> B -> S) (g : A -> list B)
  (l : list A) (s : S) :
  fold_left (fun s a => fold_left f (g a) s) l s = fold_left f (flat_map g l) s.
Proof.
  revert s. induction l as [|a l IH]; cbn; intros s; [reflexivity|].
  now rewrite fold_left_app, IH.
Qed.

Lemma flat_map_flat_map {A B C : Type} (f : B -> list C) (g : A -> list B)
  (l : list A) :
  flat_map f (flat_map g l) = flat_map (fun a => flat_map f (g a)) l.
Proof.
  induction l as [|a l IH]; cbn; [reflexivity|].
  now rewrite flat_map_app, IH.
Qed.

Section LoaderFacts.
Context {Image Emb : Type} `{World Image} `{Clip Image Emb}.
Implicit Types (images : dict string Image) (conn : SMBConnection).

Lemma open_local_split (label : string) images (key : string) :
  open_local label images key
  = (local_calls label key, store Image_open images key).
Proof.
  unfold open_local, local_calls, round_calls, store, print3, emit, bind, ret.
  now destruct (Image_open key).
Qed.

Lemma open_remote_split conn (share : string) images (full_path : string) :
  open_remote conn share images full_path
  = (remote_calls conn share full_path,
     store (fetch_remote conn share) images full_path).
Proof.
  unfold open_remote, remote_calls, round_calls, store, fetch_remote,
    print3, emit, bind, ret.
  now destruct (rbind _ _).
Qed.

Lemma load_directory_split (fetch : string -> result Image)
  (calls : string -> list event)
  (open : dict string Image -> string -> io (dict string Image))
  (root : string) (files_in_dir : list string) images :
  (forall images key, open images key = (calls key, store fetch images key)) ->
  load_directory open root files_in_dir images
  = (flat_map calls (directory_keys root files_in_dir),
     load_all fetch (directory_keys root files_in_dir) images).
Proof.
  intros Hopen. unfold load_directory, directory_keys, load_all.
  revert images.
  induction files_in_dir as [|name files IH]; intros images; [reflexivity|].
  cbn [for_each filter]. destruct (is_image_name name).
  - rewrite Hopen. unfold bind. rewrite IH. reflexivity.
  - unfold bind, ret. rewrite IH. reflexivity.
Qed.

Lemma consume_walk_split conn (share : string) (steps : list walk_step) images :
  consume_walk conn share steps images
  = (walk_calls conn share steps,
     load_all (fetch_remote conn share) (walk_keys steps) images).
Proof.
  unfold consume_walk, walk_calls, walk_keys, load_all.
  rewrite <- fold_left_flat_map.
  apply for_each_split. intros s [e|root dirs files] _.
  - reflexivity.
  - apply (load_directory_split (fetch_remote conn share)).
    apply open_remote_split.
Qed.

Lemma local_walk_split (label : string)
  (triples : list (string * list string * list string)) images :
  for_each triples
    (fun images '(root, _, files_in_dir) =>
       load_directory (open_local label) root files_in_dir images)
    images
  = (flat_map (local_calls label) (local_keys triples),
     load_all Image_open (local_keys triples) images).
Proof.
  unfold local_keys, load_all.
  rewrite <- fold_left_flat_map, flat_map_flat_map.
  apply for_each_split.
  intros s [[root dirs] files] _.
  apply (load_directory_split Image_open). apply open_local_split.
Qed.

End LoaderFacts.

Section LoaderCases.
Context {Image Emb : Type} `{World Image} `{Clip Image Emb}.

Lemma load_images_combined_finish (files : option (list string))
  (folder_path : option string) :
  load_images_combined files folder_path
  = (trace (load_images files folder_path),
     finish (value (load_images files folder_path))).
Proof.
  unfold load_images_combined, finish, bind, ret, trace, value.
  destruct (load_images files folder_path)
    as [t [[status|[|entry images]]|e]];
    cbn; now rewrite app_nil_r.
Qed.

Lemma load_images_upload (l : list string) (folder_path : option string) :
  l <> [] ->
  load_images (Some l) folder_path
  = (flat_map (local_calls "Error loading file:") l,
     Ok (inr (load_all Image_open l []))).
Proof.
  intros Hl. unfold load_images.
  destruct l as [|file l]; [contradiction|]. cbn [truthy_list].
  rewrite (for_each_split (local_calls "Error loading file:")
             (store Image_open))
    by (intros; apply open_local_split).
  unfold bind, ret. now rewrite app_nil_r.
Qed.

Lemma load_images_no_input (files : option (list string))
  (folder_path : option string) :
  truthy_list files = false -> truthy_str folder_path = false ->
  load_images files folder_path = ([], Ok (inl "No images provided")).
Proof. intros Hf Hp. unfold load_images. now rewrite Hf, Hp. Qed.

Lemma startswith_truthy (url prefix : string) :
  prefix <> "" -> PyStr.startswith url prefix = true ->
  truthy_str (Some url) = true.
Proof.
  destruct prefix; [contradiction|]. destruct url; [discriminate|reflexivity].
Qed.

Lemma load_images_bad_url (files : option (list string)) (url : string)
  (e : exception) :
  truthy_list files = false ->
  PyStr.startswith url "smb://" = true ->
  parse_smb_url url = Raise e ->
  load_images files (Some url)
  = ([], Ok (inl ("Invalid SMB URL: " +++ str_of_exception e))).
Proof.
  intros Hf Hsmb Hparse. unfold load_images.
  rewrite Hf, (startswith_truthy url "smb://") by (assumption || discriminate).
  now rewrite Hsmb, Hparse.
Qed.

Lemma load_images_smb (files : option (list string))
  (url server share rel_path : string) :
  truthy_list files = false ->
  PyStr.startswith url "smb://" = true ->
  parse_smb_url url = Ok (server, share, rel_path) ->
  let conn := connection_of server in
  let steps :=
    smb_walk conn (smb_listPath conn share rel_path) share rel_path in
  load_images files (Some url)
  = match SMBConnection_init conn with
    | Raise e => ([], Raise e)
    | Ok _ =>
        match smb_connect conn server 445 with
        | Raise e => ([EvConnect conn server 445], Raise e)
        | Ok true =>
            (EvConnect conn server 445
               :: walk_calls conn share steps ++ [EvClose conn],
             Ok (inr (load_all (fetch_remote conn share) (walk_keys steps) [])))
        | Ok false =>
            ([EvConnect conn server 445], Ok (inl "Connection failed."))
        end
    end.
Proof.
  intros Hf Hsmb Hparse conn steps. unfold load_images.
  rewrite Hf, (startswith_truthy url "smb://") by (assumption || discriminate).
  rewrite Hsmb, Hparse. fold (connection_of server). fold conn.
  destruct (SMBConnection_init conn); [|reflexivity].
  destruct (smb_connect conn server 445) as [[|]|e]; cbn [negb].
  - rewrite consume_walk_split. reflexivity.
  - reflexivity.
  - reflexivity.
Qed.

Lemma load_images_local (files : option (list string)) (path : string) :
  truthy_list files = false ->
  path <> "" ->
  PyStr.startswith path "smb://" = false ->
  load_images files (Some path)
  = if os_path_isdir path
    then (EvIsDir path :: EvOsWalk path
            :: flat_map (local_calls "Error loading local file:")
                        (local_keys (os_walk path)),
          Ok (inr (load_all Image_open (local_keys (os_walk path)) [])))
    else ([EvIsDir path], Ok (inl "Invalid folder path provided.")).
Proof.
  intros Hf Hne Hsmb. unfold load_images.
  rewrite Hf. cbn [truthy_str].
  destruct (String.eqb_spec path "") as [->|_]; [contradiction|]. cbn [negb].
  rewrite Hsmb. destruct (os_path_isdir path).
  - rewrite local_walk_split. unfold bind, emit, ret. cbn.
    now rewrite app_nil_r.
  - reflexivity.
Qed.

End LoaderCases.

(** ** gui.py: load_images_combined *)

Section LoaderProperties.
Context {Image Emb : Type} `{World Image} `{Clip Image Emb}.

(** The four ways the two inputs can be. *)
Lemma load_cases (files : option (list string)) (folder_path : option string) :
  (exists l, files = Some l /\ l <> [])
  \/ (truthy_list files = false /\ truthy_str folder_path = false)
  \/ (truthy_list files = false
      /\ exists url, folder_path = Some url
                     /\ PyStr.startswith url "smb://" = true)
  \/ (truthy_list files = false
      /\ exists path, folder_path = Some path /\ path <> ""
                      /\ PyStr.startswith path "smb://" = false).
Proof.
  destruct files as [[|file l]|].
  2: { left. exists (file :: l). split; [reflexivity|discriminate]. }
  all: right; destruct folder_path as [path|]; [|now left].
  all: destruct (String.eqb_spec path "") as [->|Hne];
    [left; split; reflexivity|right].
  all: destruct (PyStr.startswith path "smb://") eqn:Hsmb;
    [left|right]; split; eauto.
Qed.

(** Whatever is loaded was stored key by key into an empty dictionary. *)
Lemma load_images_loaded (files : option (list string))
  (folder_path : option string) (loaded : dict string Image) :
  value (load_images files folder_path) = Ok (inr loaded) ->
  exists fetch keys, loaded = load_all fetch keys [].
Proof.
  destruct (load_cases files folder_path)
    as [[l [-> Hl]]|[[Hf Hp]|[[Hf [url [-> Hsmb]]]|[Hf [path [-> [Hne Hsmb]]]]]]].
  - rewrite load_images_upload by assumption. intros [= <-]. eauto.
  - now rewrite load_images_no_input.
  - destruct (parse_smb_url url) as [[[server share] rel_path]|e] eqn:Hparse.
    + rewrite (load_images_smb files url server share rel_path) by assumption.
      cbv zeta. destruct (SMBConnection_init _); [|discriminate].
      destruct (smb_connect _ _ _) as [[|]|]; try discriminate.
      intros [= <-]. eauto.
    + now rewrite (load_images_bad_url files url e).
  - rewrite load_images_local by assumption.
    destruct (os_path_isdir path); [|discriminate]. intros [= <-]. eauto.
Qed.

Lemma load_images_wf (files : option (list string))
  (folder_path : option string) (loaded : dict string Image) :
  value (load_images files folder_path) = Ok (inr loaded) -> dict_wf loaded.
Proof.
  intros Hl. apply load_images_loaded in Hl. destruct Hl as [fetch [keys ->]].
  apply load_all_wf. constructor.
Qed.

(** A state comes with the success status, holds what was loaded, which is
    not empty, and the embeddings computed from it. *)
Lemma load_images_combined_state (files : option (list string))
  (folder_path : option string) (status : string) (state : @session Image Emb) :
  value (load_images_combined files folder_path) = Ok (status, Some state) ->
  status = "Images loaded successfully"
  /\ value (load_images files folder_path) = Ok (inr (images state))
  /\ images state <> []
  /\ embeddings state = get_image_embeddings (images state).
Proof.
  rewrite load_images_combined_finish. unfold value at 1. cbn [snd].
  destruct (value (load_images files folder_path))
    as [[s|[|entry loaded]]|e]; cbn; try discriminate.
  intros [= <- <-]. cbn. repeat split. discriminate.
Qed.

(** C3. In the state of a successful load the embeddings have the keys of
    the images, in the same order and without repetition, and under every
    key the embedding of the image under that key. *)
Theorem load_images_combined_same_keys (files : option (list string))
  (folder_path : option string) (status : string) (state : @session Image Emb) :
  value (load_images_combined files folder_path) = Ok (status, Some state) ->
  dict_keys (embeddings state) = dict_keys (images state)
  /\ dict_wf (images state)
  /\ (forall key, In key (dict_keys (embeddings state))
                  <-> In key (dict_keys (images state)))
  /\ (forall key, dict_get (embeddings state) key
                  = option_map encode_image (dict_get (images state) key)).
Proof.
  intros Hload. apply load_images_combined_state in Hload.
  destruct Hload as [_ [Hloaded [_ Hemb]]].
  apply load_images_wf in Hloaded.
  rewrite Hemb, get_image_embeddings_map by assumption.
  rewrite dict_keys_map_values.
  repeat split; auto. intros key. apply dict_get_map_values.
Qed.

(** X17. The loader returns a status and no state in the error cases (no
    input, invalid SMB URL, a connection that is built and answers false,
    invalid folder path, nothing loaded), and only in them: with a state
    the status is the success status and the images are not empty. *)
Theorem load_images_combined_errors (files : option (list string))
  (folder_path : option string) :
  (forall status,
     load_error files folder_path status <->
     value (load_images_combined files folder_path) = Ok (status, None))
  /\ (forall status (state : @session Image Emb),
        value (load_images_combined files folder_path)
        = Ok (status, Some state) ->
        status = "Images loaded successfully" /\ images state <> []).
Proof.
  split.
  - intros status. rewrite load_images_combined_finish.
    unfold value at 1. cbn [snd]. split.
    + intros [Hf Hp|url e Hf -> Hsmb Hparse
             |url server share rel_path Hf -> Hsmb Hparse Hinit Hconn
             |path Hf -> Hne Hsmb Hdir|Hnone].
      * now rewrite load_images_no_input.
      * now rewrite (load_images_bad_url files url e).
      * rewrite (load_images_smb files url server share rel_path) by assumption.
        cbv zeta. now rewrite Hinit, Hconn.
      * rewrite load_images_local by assumption. now rewrite Hdir.
      * now rewrite Hnone.
    + destruct (value (load_images files folder_path))
        as [[s|[|entry loaded]]|e0] eqn:Hloaded; cbn; try discriminate.
      2: { intros [= <-]. now apply NothingLoaded. }
      intros [= <-]. revert Hloaded.
      destruct (load_cases files folder_path)
        as [[l [-> Hl]]|[[Hf Hp]
           |[[Hf [url [-> Hsmb]]]|[Hf [path [-> [Hne Hsmb]]]]]]].
      * now rewrite load_images_upload.
      * rewrite load_images_no_input by assumption. intros [= <-].
        now apply NoInput.
      * destruct (parse_smb_url url) as [[[server share] rel_path]|e] eqn:Hparse.
        -- rewrite (load_images_smb files url server share rel_path)
             by assumption.
           cbv zeta.
           destruct (SMBConnection_init _) as [[]|] eqn:Hinit; [|discriminate].
           destruct (smb_connect _ _ _) as [[|]|] eqn:Hconn; try discriminate.
           intros [= <-]. now apply (ConnectionFailed _ _ url server share rel_path).
        -- rewrite (load_images_bad_url files url e) by assumption.
           intros [= <-]. now apply (InvalidUrl _ _ url e).
      * rewrite load_images_local by assumption.
        destruct (os_path_isdir path) eqn:Hdir; [discriminate|].
        intros [= <-]. now apply (InvalidFolder _ _ path).
  - intros status state Hload. apply load_images_combined_state in Hload.
    tauto.
Qed.

(** C6. A connection that cannot be made is not turned into a status: when
    the URL parses, the connection is built and [conn.connect] raises (as
    it does for a server that cannot be reached), [load_images_combined]
    raises the same exception right after this one call, and so returns
    neither a status nor a state. *)
Theorem load_images_combined_connect_raises (files : option (list string))
  (url server share rel_path : string) (e : exception) :
  truthy_list files = false ->
  PyStr.startswith url "smb://" = true ->
  parse_smb_url url = Ok (server, share, rel_path) ->
  SMBConnection_init (connection_of server) = Ok tt ->
  smb_connect (connection_of server) server 445 = Raise e ->
  load_images_combined (Emb := Emb) files (Some url)
  = ([EvConnect (connection_of server) server 445], Raise e)
  /\ (forall status (state : option (@session Image Emb)),
        value (load_images_combined files (Some url)) <> Ok (status, state)).
Proof.
  intros Hf Hsmb Hparse Hinit Hconn.
  rewrite load_images_combined_finish.
  rewrite (load_images_smb files url server share rel_path) by assumption.
  cbv zeta. rewrite Hinit, Hconn. split; [reflexivity|].
  intros status state. discriminate.
Qed.

End LoaderProperties.

(** ** gui.py: the remote walk *)

Lemma Forall_flat_map {A B : Type} (P : B -> Prop) (f : A -> list B)
  (l : list A) :
  (forall a, In a l -> Forall P (f a)) -> Forall P (flat_map f l).
Proof.
  induction l as [|a l IH]; cbn; intros Hf; [constructor|].
  apply Forall_app. split; [apply Hf; now left|].
  apply IH. intros; apply Hf; now right.
Qed.

Lemma smb_walk_calls (conn : SMBConnection) (share : string) (tree : smb_tree) :
  forall top,
    Forall (fun step =>
              match step with
              | WalkCall e => uses_connection conn e
              | WalkYield _ _ _ => True
              end)
           (smb_walk conn tree share top).
Proof.
  induction tree as [e|entries IH] using smb_tree_induction; intros top;
    cbn [smb_walk].
  - repeat constructor.
  - constructor; [reflexivity|]. constructor; [exact I|].
    apply Forall_flat_map. intros entry Hentry.
    destruct (negb _ && _); [|constructor].
    rewrite Forall_forall in IH. now apply IH.
Qed.

Section ConnectionProperties.
Context {Image Emb : Type} `{World Image} `{Clip Image Emb}.

Lemma remote_calls_use (conn : SMBConnection) (share key : string) :
  Forall (uses_connection conn) (remote_calls conn share key).
Proof.
  unfold remote_calls, round_calls.
  destruct (fetch_remote conn share key); repeat constructor.
Qed.

Lemma walk_calls_use (conn : SMBConnection) (share : string)
  (steps : list walk_step) :
  Forall (fun step =>
            match step with
            | WalkCall e => uses_connection conn e
            | WalkYield _ _ _ => True
            end) steps ->
  Forall (uses_connection conn) (walk_calls conn share steps).
Proof.
  intros Hsteps. unfold walk_calls. apply Forall_flat_map.
  intros [e|root dirs files] Hin.
  - rewrite Forall_forall in Hsteps. constructor; [|constructor].
    apply (Hsteps _ Hin).
  - apply Forall_flat_map. intros key _. apply remote_calls_use.
Qed.

Lemma uses_not_connect_close (conn : SMBConnection) (l : list event) :
  Forall (uses_connection conn) l ->
  filter is_connect l = [] /\ filter is_close l = [].
Proof.
  induction 1 as [|e l He _ [IHc IHx]]; [split; reflexivity|].
  destruct e; cbn in *; try contradiction; auto.
Qed.


(** A URL without a share is turned down before any call is made. *)
Lemma smb_invalid_url_no_call (files : option (list string)) (url : string)
  (e : exception) :
  truthy_list files = false ->
  PyStr.startswith url "smb://" = true ->
  parse_smb_url url = Raise e ->
  trace (load_images_combined (Emb := Emb) files (Some url)) = [].
Proof.
  intros Hf Hsmb Hparse. rewrite load_images_combined_finish.
  unfold trace at 1. cbn [fst].
  now rewrite (load_images_bad_url files url e).
Qed.

End ConnectionProperties.

(** ** Names and extensions *)

Lemma length_append (a b : string) :
  String.length (a +++ b) = (String.length a + String.length b)%nat.
Proof. induction a as [|c a IH]; cbn; [reflexivity|now rewrite IH]. Qed.

Lemma slice_from_append (a b : string) (n : nat) :
  PyStr.slice_from (String.length a + n) (a +++ b) = PyStr.slice_from n b.
Proof. induction a as [|c a IH]; cbn; [reflexivity|exact IH]. Qed.

Lemma lower_append (a b : string) :
  PyStr.lower (a +++ b) = PyStr.lower a +++ PyStr.lower b.
Proof. induction a as [|c a IH]; cbn; [reflexivity|now rewrite IH]. Qed.

Lemma endswith_append (a b suf : string) :
  PyStr.endswith b suf = true -> PyStr.endswith (a +++ b) suf = true.
Proof.
  unfold PyStr.endswith. intros Hb.
  apply andb_true_iff in Hb. destruct Hb as [Hlen Heq].
  apply Nat.leb_le in Hlen. rewrite length_append.
  apply andb_true_iff. split; [apply Nat.leb_le; lia|].
  replace (String.length a + String.length b - String.length suf)%nat
    with (String.length a + (String.length b - String.length suf))%nat by lia.
  now rewrite slice_from_append.
Qed.

Lemma is_image_name_append (a b : string) :
  is_image_name b = true -> is_image_name (a +++ b) = true.
Proof.
  unfold is_image_name, PyStr.endswith_any. rewrite lower_append.
  rewrite !existsb_exists. intros [suf [Hin Hsuf]].
  exists suf. split; [assumption|now apply endswith_append].
Qed.

(** A joined path ends as its last component does. *)
Lemma is_image_name_join (root name : string) :
  is_image_name name = true -> is_image_name (os_path_join root name) = true.
Proof.
  intros Hname. unfold os_path_join.
  destruct (PyStr.startswith name "/"); [assumption|].
  destruct (_ || _); repeat apply is_image_name_append; assumption.
Qed.

Lemma directory_keys_In (root : string) (files_in_dir : list string)
  (key : string) :
  In key (directory_keys root files_in_dir) <->
  exists name, In name files_in_dir /\ is_image_name name = true
               /\ key = os_path_join root name.
Proof.
  unfold directory_keys. rewrite in_map_iff. split.
  - intros [name [<- Hin]]. apply filter_In in Hin. exists name. tauto.
  - intros [name [Hin [Himg ->]]]. exists name.
    split; [reflexivity|]. apply filter_In. tauto.
Qed.

Lemma directory_keys_images (root : string) (files_in_dir : list string)
  (key : string) :
  In key (directory_keys root files_in_dir) -> is_image_name key = true.
Proof.
  intros Hin. apply directory_keys_In in Hin.
  destruct Hin as [name [_ [Himg ->]]]. now apply is_image_name_join.
Qed.

Example is_image_name_upper : is_image_name "/pics/IMG_0001.JPG" = true.
Proof. reflexivity. Qed.

Example is_image_name_text : is_image_name "/pics/notes.txt" = false.
Proof. reflexivity. Qed.

Example is_image_name_no_dot : is_image_name "png" = false.
Proof. reflexivity. Qed.

(** ** gui.py: files that fail, files that load *)

Section LoadOutcomes.
Context {Image Emb : Type} `{World Image} `{Clip Image Emb}.

Lemma loaded_outcome (files : option (list string))
  (folder_path : option string) (calls : list event)
  (fetch : string -> result Image) (attempt : string -> event)
  (label : string) (keys : list string) (key : string) :
  load_images files folder_path = (calls, Ok (inr (load_all fetch keys []))) ->
  incl (flat_map (round_calls fetch attempt label) keys) calls ->
  In key keys ->
  In (attempt key) (trace (load_images_combined (Emb := Emb) files folder_path))
  /\ outcome_respected (load_images_combined files folder_path)
                       label key (fetch key).
Proof.
  intros Hload Hcalls Hkey.
  rewrite load_images_combined_finish, Hload.
  unfold trace, value. cbn [fst snd].
  assert (Hround : incl (round_calls fetch attempt label key) calls).
  { intros e He. apply Hcalls. apply in_flat_map. eauto. }
  split; [apply Hround; now left|].
  unfold outcome_respected, round_calls in *.
  destruct (fetch key) as [img|e] eqn:Hfetch; cbn [fst snd].
  - pose proof (load_all_loaded fetch keys [] key img Hkey Hfetch) as Hget.
    destruct (load_all fetch keys []) as [|entry loaded] eqn:Hall;
      [discriminate|].
    cbn [finish]. eexists. split; [reflexivity|]. exact Hget.
  - split; [apply Hround; right; now left|].
    intros status state Hstate.
    assert (Himages : images state = load_all fetch keys []).
    { destruct (load_all fetch keys []) as [|entry loaded]; cbn in Hstate;
        [discriminate|]. now injection Hstate as _ <-. }
    rewrite Himages, load_all_skipped by eauto. reflexivity.
Qed.

Lemma walk_keys_In (steps : list walk_step) (root : string)
  (dirs names : list string) (name : string) :
  In (WalkYield root dirs names) steps -> In name names ->
  is_image_name name = true ->
  In (os_path_join root name) (walk_keys steps).
Proof.
  intros Hstep Hname Himg. unfold walk_keys. apply in_flat_map.
  exists (WalkYield root dirs names). split; [assumption|].
  apply directory_keys_In. eauto.
Qed.

Lemma walk_calls_rounds (conn : SMBConnection) (share : string)
  (steps : list walk_step) :
  incl (flat_map (remote_calls conn share) (walk_keys steps))
       (walk_calls conn share steps).
Proof.
  intros e He. apply in_flat_map in He. destruct He as [key [Hkey He]].
  unfold walk_keys in Hkey. apply in_flat_map in Hkey.
  destruct Hkey as [step [Hstep Hkey]].
  unfold walk_calls. apply in_flat_map. exists step. split; [assumption|].
  destruct step as [e'|root dirs names]; [contradiction|].
  apply in_flat_map. eauto.
Qed.

Lemma local_keys_In (triples : list (string * list string * list string))
  (root : string) (dirs names : list string) (name : string) :
  In (root, dirs, names) triples -> In name names ->
  is_image_name name = true ->
  In (os_path_join root name) (local_keys triples).
Proof.
  intros Htriple Hname Himg. unfold local_keys. apply in_flat_map.
  exists (root, dirs, names). split; [assumption|].
  apply directory_keys_In. eauto.
Qed.

(** The three sources of files, each with what it tries and what it owes. *)

Lemma upload_outcome (l : list string) (folder_path : option string)
  (file : string) :
  In file l ->
  In (EvImageOpen file)
     (trace (load_images_combined (Emb := Emb) (Some l) folder_path))
  /\ outcome_respected (load_images_combined (Some l) folder_path)
                       "Error loading file:" file (Image_open file).
Proof.
  intros Hfile.
  eapply (loaded_outcome (Some l) folder_path _ Image_open EvImageOpen _ l).
  - apply load_images_upload. intros ->. contradiction.
  - apply incl_refl.
  - assumption.
Qed.

Lemma local_outcome (files : option (list string)) (path root : string)
  (dirs names : list string) (name : string) :
  truthy_list files = false -> path <> "" ->
  PyStr.startswith path "smb://" = false ->
  os_path_isdir path = true ->
  In (root, dirs, names) (os_walk path) -> In name names ->
  is_image_name name = true ->
  let full_path := os_path_join root name in
  In (EvImageOpen full_path)
     (trace (load_images_combined (Emb := Emb) files (Some path)))
  /\ outcome_respected (load_images_combined files (Some path))
                       "Error loading local file:" full_path
                       (Image_open full_path).
Proof.
  intros Hf Hne Hsmb Hdir Htriple Hname Himg full_path.
  eapply (loaded_outcome files (Some path) _ Image_open EvImageOpen _
            (local_keys (os_walk path))).
  - rewrite load_images_local by assumption. rewrite Hdir. reflexivity.
  - intros e He. right. right. exact He.
  - now apply (local_keys_In _ root dirs names).
Qed.

Lemma remote_outcome (files : option (list string))
  (url server share rel_path root : string) (dirs names : list string)
  (name : string) :
  truthy_list files = false ->
  PyStr.startswith url "smb://" = true ->
  parse_smb_url url = Ok (server, share, rel_path) ->
  let conn := connection_of server in
  SMBConnection_init conn = Ok tt ->
  smb_connect conn server 445 = Ok true ->
  In (WalkYield root dirs names)
     (smb_walk conn (smb_listPath conn share rel_path) share rel_path) ->
  In name names -> is_image_name name = true ->
  let full_path := os_path_join root name in
  In (EvRetrieveFile conn share full_path)
     (trace (load_images_combined (Emb := Emb) files (Some url)))
  /\ outcome_respected (load_images_combined files (Some url))
                       "Error loading SMB file:" full_path
                       (fetch_remote conn share full_path).
Proof.
  intros Hf Hsmb Hparse conn Hinit Hconn Hstep Hname Himg full_path.
  eapply (loaded_outcome files (Some url) _ (fetch_remote conn share)
           (EvRetrieveFile conn share) _
           (walk_keys (smb_walk conn (smb_listPath conn share rel_path)
                                share rel_path))).
  - rewrite (load_images_smb files url server share rel_path) by assumption.
    cbv zeta. fold conn. rewrite Hinit, Hconn. reflexivity.
  - intros e He. right. apply in_or_app. left.
    now apply walk_calls_rounds.
  - now apply (walk_keys_In _ root dirs names).
Qed.

End LoadOutcomes.

Section LoaderClaims.
Context {Image Emb : Type} `{World Image} `{Clip Image Emb}.


Lemma walk_keys_images (steps : list walk_step) (key : string) :
  In key (walk_keys steps) -> is_image_name key = true.
Proof.
  unfold walk_keys. intros Hin. apply in_flat_map in Hin.
  destruct Hin as [[e|root dirs names] [_ Hkey]]; [contradiction|].
  now apply directory_keys_images in Hkey.
Qed.

Lemma local_keys_images (triples : list (string * list string * list string))
  (key : string) :
  In key (local_keys triples) -> is_image_name key = true.
Proof.
  unfold local_keys. intros Hin. apply in_flat_map in Hin.
  destruct Hin as [[[root dirs] names] [_ Hkey]].
  now apply directory_keys_images in Hkey.
Qed.

Lemma folder_keys_images (files : option (list string))
  (folder_path : option string) (loaded : dict string Image) (key : string) :
  truthy_list files = false ->
  value (load_images files folder_path) = Ok (inr loaded) ->
  In key (dict_keys loaded) -> is_image_name key = true.
Proof.
  intros Hf.
  destruct (load_cases files folder_path)
    as [[l [-> Hl]]|[[_ Hp]|[[_ [url [-> Hsmb]]]|[_ [path [-> [Hne Hsmb]]]]]]].
  - destruct l; [contradiction|discriminate].
  - now rewrite load_images_no_input.
  - destruct (parse_smb_url url) as [[[server share] rel_path]|e] eqn:Hparse.
    + rewrite (load_images_smb files url server share rel_path) by assumption.
      cbv zeta. destruct (SMBConnection_init _); [|discriminate].
      destruct (smb_connect _ _ _) as [[|]|]; try discriminate.
      intros [= <-] Hkey. apply load_all_keys in Hkey.
      destruct Hkey as [[]|Hkey]. now apply walk_keys_images in Hkey.
    + now rewrite (load_images_bad_url files url e).
  - rewrite load_images_local by assumption.
    destruct (os_path_isdir path); [|discriminate].
    intros [= <-] Hkey. apply load_all_keys in Hkey.
    destruct Hkey as [[]|Hkey]. now apply local_keys_images in Hkey.
Qed.



End LoaderClaims.

(** ** gui.py: the callbacks before any load *)

Section Callbacks.
Context {Image Emb Score : Type}.
Context `{World Image} `{Clip Image Emb} `{Numpy Emb Score} `{Sklearn Emb}.

(** C10. Without a session state the search returns the empty list and the
    clustering returns "No images loaded."; neither raises, and the answer
    is the same whatever the encoders, the scores and the clustering would
    compute. *)
Theorem callbacks_without_state (prompt : string) (num_clusters : Z) :
  search_images (Emb := Emb) (Score := Score) prompt None = Ok []
  /\ cluster_images_gui (Emb := Emb) None num_clusters = Ok "No images loaded.".
Proof. split; reflexivity. Qed.

End Callbacks.

(** * Further properties *)

(** ** gui.py: parse_smb_url, what comes back *)

Lemma append_assoc (a b c : string) : (a +++ b) +++ c = a +++ b +++ c.
Proof. induction a as [|x a IH]; cbn; [reflexivity|now rewrite IH]. Qed.

Lemma append_empty (a : string) : a +++ "" = a.
Proof. induction a as [|x a IH]; cbn; [reflexivity|now rewrite IH]. Qed.

Lemma startswith_append (p s : string) : PyStr.startswith (p +++ s) p = true.
Proof.
  induction p as [|x p IH]; cbn; [reflexivity|].
  now rewrite Ascii.eqb_refl, IH.
Qed.

Lemma startswith_slice (s p : string) :
  PyStr.startswith s p = true ->
  s = p +++ PyStr.slice_from (String.length p) s.
Proof.
  revert s. induction p as [|x p IH]; intros s; cbn; [reflexivity|].
  destruct s as [|y s]; [discriminate|].
  intros Hs. apply andb_true_iff in Hs. destruct Hs as [Hxy Hs].
  apply Ascii.eqb_eq in Hxy. subst y. now rewrite <- (IH s Hs).
Qed.

Lemma split_lacks_all (c : ascii) (s : string) :
  Forall (PyStr.lacks c) (PyStr.split c s).
Proof.
  induction s as [|a s IH]; cbn; [repeat constructor|].
  destruct (Ascii.eqb_spec a c) as [->|Hac].
  - constructor; [exact I|assumption].
  - destruct (PyStr.split c s) as [|w ws]; [repeat constructor; assumption|].
    inversion IH; subst. constructor; [|assumption]. cbn. auto.
Qed.

(** X1. What [parse_smb_url] returns can be put together again: the server
    and the share hold no slash, the path begins with a slash, the URL
    begins with [smb://server/share], and it is [smb://server/share]
    followed by the path unless the path is the bare [/]. *)
Theorem parse_smb_url_components (url server share rel_path : string) :
  parse_smb_url url = Ok (server, share, rel_path) ->
  PyStr.lacks "/" server
  /\ PyStr.lacks "/" share
  /\ PyStr.startswith rel_path "/" = true
  /\ PyStr.startswith url ("smb://" +++ server +++ "/" +++ share) = true
  /\ (rel_path <> "/" -> url = "smb://" +++ server +++ "/" +++ share +++ rel_path).
Proof.
  intros Hparse.
  destruct (PyStr.startswith url "smb://") eqn:Hpre.
  2: { unfold parse_smb_url in Hparse. now rewrite Hpre in Hparse. }
  destruct (PyStr.split "/" (PyStr.slice_from 6 url)) as [|a [|b rest]] eqn:Hp.
  1, 2: unfold parse_smb_url in Hparse; now rewrite Hpre, Hp in Hparse.
  rewrite (parse_smb_url_parts url a b rest Hpre Hp) in Hparse.
  injection Hparse as -> -> Hrel.
  pose proof (split_lacks_all "/" (PyStr.slice_from 6 url)) as Hlacks.
  rewrite Hp in Hlacks.
  apply Forall_cons_iff in Hlacks. destruct Hlacks as [Ha Hlacks].
  apply Forall_cons_iff in Hlacks. destruct Hlacks as [Hb _].
  pose proof (join_split "/" (PyStr.slice_from 6 url)) as Hjoin.
  rewrite Hp in Hjoin. unfold PyStr.join in Hjoin.
  apply startswith_slice in Hpre.
  change (String.length "smb://") with 6%nat in Hpre.
  rewrite <- Hjoin in Hpre. clear Hjoin Hp.
  assert (Htail : exists tail,
             url = ("smb://" +++ server +++ "/" +++ share) +++ tail
             /\ (rel_path = "/" \/ rel_path = tail)
             /\ PyStr.startswith rel_path "/" = true).
  { destruct rest as [|p rest].
    - exists "". subst rel_path. split; [|split; [now left|reflexivity]].
      rewrite Hpre. cbn [String.concat]. now rewrite append_empty.
    - exists ("/" +++ String.concat "/" (p :: rest)). split.
      + rewrite Hpre. cbn [String.concat]. now rewrite !append_assoc.
      + subst rel_path. cbn [hd]. unfold PyStr.join.
        destruct (String.eqb p ""); cbn [negb];
          split; auto. }
  destruct Htail as [tail [Hurl [Hrel' Hslash]]].
  split; [assumption|]. split; [assumption|]. split; [assumption|].
  split.
  - rewrite Hurl. apply startswith_append.
  - intros Hne. destruct Hrel' as [Hrel'|Hrel']; [contradiction|].
    rewrite Hurl, Hrel'. now rewrite !append_assoc.
Qed.

(** ** gui.py: smb_walk *)

Section WalkProperties.
Variables (conn : SMBConnection) (share : string).

(** The directory and file names of a listing, as [smb_walk] sorts them. *)
Lemma smb_walk_listed (entries : list (SharedFile * smb_tree)) (top : string) :
  exists dirs files,
    smb_walk conn (SmbListing (Ok entries)) share top
    = WalkCall (EvListPath conn share top) :: WalkYield top dirs files
      :: flat_map
           (fun entry =>
              if negb (is_dot_entry (filename (fst entry)))
                 && isDirectory (fst entry)
              then smb_walk conn (snd entry) share
                            (os_path_join top (filename (fst entry)))
              else [])
           entries
    /\ (forall name,
          In name dirs <->
          exists entry sub, In (entry, sub) entries /\ filename entry = name
                            /\ is_dot_entry name = false
                            /\ isDirectory entry = true)
    /\ (forall name,
          In name files <->
          exists entry sub, In (entry, sub) entries /\ filename entry = name
                            /\ is_dot_entry name = false
                            /\ isDirectory entry = false)
    /\ List.length dirs
       = List.length
           (filter (fun entry => negb (is_dot_entry (filename (fst entry)))
                                 && isDirectory (fst entry)) entries).
Proof.
  eexists. eexists. split; [reflexivity|]. split; [|split].
  - intros name. rewrite in_map_iff. split.
    + intros [[entry sub] [<- Hin]]. apply filter_In in Hin.
      destruct Hin as [Hin Hdir]. apply filter_In in Hin.
      destruct Hin as [Hin Hdot]. cbn [fst] in *.
      exists entry, sub. apply negb_true_iff in Hdot. auto.
    + intros [entry [sub [Hin [<- [Hdot Hdir]]]]].
      exists (entry, sub). split; [reflexivity|].
      apply filter_In. split; [|exact Hdir].
      apply filter_In. split; [assumption|]. cbn [fst]. now rewrite Hdot.
  - intros name. rewrite in_map_iff. split.
    + intros [[entry sub] [<- Hin]]. apply filter_In in Hin.
      destruct Hin as [Hin Hdir]. apply filter_In in Hin.
      destruct Hin as [Hin Hdot]. cbn [fst] in *.
      exists entry, sub. apply negb_true_iff in Hdot.
      apply negb_true_iff in Hdir. auto.
    + intros [entry [sub [Hin [<- [Hdot Hdir]]]]].
      exists (entry, sub). split; [reflexivity|].
      apply filter_In. split; [|cbn [fst]; now rewrite Hdir].
      apply filter_In. split; [assumption|]. cbn [fst]. now rewrite Hdot.
  - rewrite length_map. f_equal.
    induction entries as [|[entry sub] rest IH]; [reflexivity|].
    cbn [filter fst].
    destruct (is_dot_entry (filename entry)); cbn [negb andb]; [exact IH|].
    cbn [filter fst].
    destruct (isDirectory entry); cbn [List.length]; now rewrite IH.
Qed.

Lemma yielded_names_In (steps : list walk_step) (name : string) :
  In name (yielded_names steps) <->
  exists top dirs files,
    In (WalkYield top dirs files) steps /\ In name (dirs ++ files).
Proof.
  unfold yielded_names. rewrite in_flat_map. split.
  - intros [[e|top dirs files] [Hstep Hname]]; [contradiction|eauto].
  - intros [top [dirs [files [Hstep Hname]]]]. eauto.
Qed.

(** X2. The walk never hands over [.] or [..], as a directory or as a
    file, at any depth. *)
Theorem smb_walk_hides_dot_entries (tree : smb_tree) (top name : string) :
  In name (yielded_names (smb_walk conn tree share top)) ->
  name <> "." /\ name <> "..".
Proof.
  assert (Hdot : forall n, is_dot_entry n = false -> n <> "." /\ n <> "..").
  { intros n Hn. split; intros ->; discriminate. }
  intros Hin. apply Hdot. clear Hdot. revert top Hin.
  induction tree as [e|entries IH] using smb_tree_induction; intros top Hin.
  - cbn in Hin. contradiction.
  - destruct (smb_walk_listed entries top)
      as [dirs [files [Hwalk [Hdirs [Hfiles _]]]]].
    rewrite Hwalk in Hin. apply yielded_names_In in Hin.
    destruct Hin as [top' [dirs' [files' [Hstep Hname]]]].
    destruct Hstep as [Hstep|[Hstep|Hstep]]; [discriminate| |].
    + injection Hstep as <- <- <-. apply in_app_iff in Hname.
      destruct Hname as [Hname|Hname].
      * apply Hdirs in Hname. destruct Hname as [? [? [_ [_ [Hd _]]]]].
        exact Hd.
      * apply Hfiles in Hname. destruct Hname as [? [? [_ [_ [Hd _]]]]].
        exact Hd.
    + apply in_flat_map in Hstep. destruct Hstep as [entry [Hentry Hstep]].
      destruct (negb _ && _); [|contradiction].
      rewrite Forall_forall in IH.
      apply (IH entry Hentry (os_path_join top (filename (fst entry)))).
      apply yielded_names_In. eauto.
Qed.

Lemma yielded_dirs_app (l1 l2 : list walk_step) :
  yielded_dirs (l1 ++ l2) = yielded_dirs l1 ++ yielded_dirs l2.
Proof. unfold yielded_dirs. apply flat_map_app. Qed.


(** Whatever the walk of a directory below does is part of the walk. *)
Lemma smb_walk_reaches (tree below : smb_tree) (top top' : string) :
  reaches tree top below top' ->
  incl (smb_walk conn below share top') (smb_walk conn tree share top).
Proof.
  induction 1 as [tree top|entries top entry sub below top' Hin Hdot Hdir _ IH].
  - apply incl_refl.
  - intros step Hstep. cbn [smb_walk]. right. right.
    apply in_flat_map. exists (entry, sub). split; [assumption|].
    cbn [fst snd]. rewrite Hdot, Hdir. cbn. now apply IH.
Qed.


End WalkProperties.

(** ** src/search.py: how many results, and which among equals *)

Lemma sorted_perm {A S : Type} (ltS : S -> S -> bool) (key : A -> S)
  (reverse : bool) (l : list A) :
  Permutation (sorted ltS key reverse l) l.
Proof.
  unfold sorted. destruct reverse.
  - rewrite <- Permutation_rev, sort_stable_perm. symmetry.
    apply Permutation_rev.
  - apply sort_stable_perm.
Qed.

Lemma NoDup_firstn {A : Type} (n : nat) (l : list A) :
  NoDup l -> NoDup (firstn n l).
Proof.
  intros Hl. rewrite <- (firstn_skipn n l) in Hl.
  now apply NoDup_app_remove_r in Hl.
Qed.

Lemma In_firstn {A : Type} (n : nat) (l : list A) (a : A) :
  In a (firstn n l) -> In a l.
Proof.
  intros Ha. rewrite <- (firstn_skipn n l). apply in_or_app. now left.
Qed.

Lemma slice_to_firstn {A : Type} (l : list A) (k : Z) :
  exists n,
    slice_to l k = firstn n l
    /\ n = if (0 <=? k)%Z then Z.to_nat k
           else (List.length l - Z.to_nat (- k))%nat.
Proof. unfold slice_to. destruct (0 <=? k)%Z; eauto. Qed.

Section TieFacts.
Context {A S : Type} (ltS : S -> S -> bool) (key : A -> S).
Hypothesis ltS_order : strict_weak_order ltS.

Local Abbreviation lt := (fun a b : A => ltS (key a) (key b)).

Lemma insert_stable_tied (s : S) (x : A) (l : list A) :
  filter (tied ltS key s) (insert_stable lt x l)
  = filter (tied ltS key s) (x :: l).
Proof.
  destruct ltS_order as [_ Htrans].
  induction l as [|y l IH]; [reflexivity|].
  cbn [insert_stable]. destruct (ltS (key y) (key x)) eqn:Hyx; [|reflexivity].
  cbn [filter] in *. rewrite IH.
  destruct (tied ltS key s y) eqn:Hy; [|reflexivity].
  destruct (tied ltS key s x) eqn:Hx; [|reflexivity].
  unfold tied in Hy, Hx.
  apply andb_true_iff in Hy. destruct Hy as [_ Hy].
  apply andb_true_iff in Hx. destruct Hx as [Hx _].
  apply negb_true_iff in Hy, Hx.
  rewrite (Htrans _ _ _ Hy Hx) in Hyx. discriminate.
Qed.

Lemma sort_stable_tied (s : S) (l : list A) :
  filter (tied ltS key s) (sort_stable lt l) = filter (tied ltS key s) l.
Proof.
  induction l as [|x l IH]; [reflexivity|].
  cbn [sort_stable]. rewrite insert_stable_tied. cbn [filter].
  now rewrite IH.
Qed.

Lemma filter_rev (p : A -> bool) (l : list A) :
  filter p (rev l) = rev (filter p l).
Proof.
  induction l as [|x l IH]; [reflexivity|].
  cbn. rewrite filter_app, IH. cbn. destruct (p x); cbn;
    [reflexivity|now rewrite app_nil_r].
Qed.

Lemma sorted_reverse_tied (s : S) (l : list A) :
  filter (tied ltS key s) (sorted ltS key true l) = filter (tied ltS key s) l.
Proof.
  unfold sorted.
  now rewrite filter_rev, sort_stable_tied, filter_rev, rev_involutive.
Qed.

Lemma filter_firstn_prefix (p : A -> bool) (n : nat) (l : list A) :
  exists m, filter p (firstn n l) = firstn m (filter p l).
Proof.
  revert n. induction l as [|x l IH]; intros n.
  - exists 0%nat. now rewrite firstn_nil.
  - destruct n as [|n]; [now exists 0%nat|].
    destruct (IH n) as [m Hm]. cbn [firstn filter].
    destruct (p x); [exists (Datatypes.S m)|exists m]; cbn; now rewrite Hm.
Qed.

End TieFacts.

Section SearchSize.
Context {Emb Score : Type} `{Numpy Emb Score}.

Lemma search_results (text_embedding : Emb)
  (image_embeddings : dict string Emb) (top_k : Z) :
  dict_wf image_embeddings ->
  let results := search_similar_images text_embedding image_embeddings top_k in
  List.length results
  = (if (0 <=? top_k)%Z
     then Nat.min (Z.to_nat top_k) (List.length image_embeddings)
     else List.length image_embeddings - Z.to_nat (- top_k))%nat
  /\ NoDup (map fst results)
  /\ forall filename score,
       In (filename, score) results ->
       exists img_embedding,
         In (filename, img_embedding) image_embeddings
         /\ score = cosine_similarity text_embedding img_embedding.
Proof.
  intros Hwf results. subst results. unfold search_similar_images.
  rewrite similarities_scored by assumption.
  set (ranked := sorted score_lt snd true (scored text_embedding image_embeddings)).
  assert (Hperm : Permutation ranked (scored text_embedding image_embeddings))
    by apply sorted_perm.
  assert (Hlen : List.length ranked = List.length image_embeddings).
  { rewrite (Permutation_length Hperm). unfold scored. apply length_map. }
  destruct (slice_to_firstn ranked top_k) as [n [-> Hn]].
  split; [|split].
  - rewrite length_firstn, Hlen in *. subst n.
    destruct (0 <=? top_k)%Z; lia.
  - rewrite <- firstn_map. apply NoDup_firstn.
    apply (Permutation_NoDup (l := dict_keys image_embeddings)); [|exact Hwf].
    symmetry. rewrite (Permutation_map fst Hperm).
    unfold scored, dict_keys. rewrite map_map.
    erewrite map_ext; [reflexivity|]. now intros [filename e].
  - intros filename score Hin. apply In_firstn in Hin.
    apply (Permutation_in _ Hperm) in Hin. unfold scored in Hin.
    apply in_map_iff in Hin. destruct Hin as [[fn e] [[= <- <-] Hin]].
    eauto.
Qed.

(** X5. [search_similar_images] returns [min(top_k, n)] entries of a map of
    [n] images for a [top_k] that is not negative, and all but the last
    [-top_k] for a negative one; no filename comes twice, and every entry
    is a filename of the map with the cosine similarity of its embedding.
    So an empty map or [top_k = 0] gives the empty list, and a [top_k]
    above [n] gives every image. *)
Theorem search_similar_images_size (text_embedding : Emb)
  (image_embeddings : dict string Emb) (top_k : Z) :
  dict_wf image_embeddings ->
  let results := search_similar_images text_embedding image_embeddings top_k in
  List.length results
  = (if (0 <=? top_k)%Z
     then Nat.min (Z.to_nat top_k) (List.length image_embeddings)
     else List.length image_embeddings - Z.to_nat (- top_k))%nat
  /\ NoDup (map fst results)
  /\ forall filename score,
       In (filename, score) results ->
       exists img_embedding,
         In (filename, img_embedding) image_embeddings
         /\ score = cosine_similarity text_embedding img_embedding.
Proof. exact (search_results text_embedding image_embeddings top_k). Qed.


End SearchSize.

(** ** src/clustering.py: whatever the labels are *)

Lemma combine_fst_NoDup {A B : Type} (l : list A) (l' : list B) :
  NoDup l -> NoDup (map fst (combine l l')).
Proof.
  revert l'. induction l as [|a l IH]; intros l' Hl; [constructor|].
  destruct l' as [|b l']; [constructor|]. cbn.
  inversion Hl as [|? ? Ha Hrest]; subst. constructor; [|now apply IH].
  intros Hin. apply Ha. apply in_map_iff in Hin.
  destruct Hin as [[a' b'] [<- Hin]]. now apply in_combine_l in Hin.
Qed.

Lemma grouped_disjoint_NoDup (pairs : list (string * Z)) (range : list Z) :
  NoDup (map fst pairs) -> NoDup range ->
  NoDup (flat_map (grouped pairs) range).
Proof.
  intros Hpairs. induction 1 as [|i range Hi Hrange IH]; [constructor|].
  cbn [flat_map]. apply NoDup_app; [now apply grouped_NoDup|exact IH|].
  intros filename Hhere Hthere. apply grouped_In in Hhere.
  apply in_flat_map in Hthere. destruct Hthere as [j [Hj Hthere]].
  apply grouped_In in Hthere.
  rewrite (NoDup_keys_functional pairs filename i j Hpairs Hhere Hthere) in Hi.
  contradiction.
Qed.

Section ClusteringAnyLabels.
Context {Emb : Type} `{Sklearn Emb}.

Lemma cluster_images_answers (image_embeddings : dict string Emb)
  (num_clusters : Z) (clusters : dict Z (list string)) :
  dict_wf image_embeddings ->
  cluster_images image_embeddings num_clusters = Ok clusters ->
  exists (X : Matrix) (labels : list Z),
    np_vstack (map snd image_embeddings) = Ok X
    /\ KMeans_fit_labels num_clusters 0 X = Ok labels
    /\ clusters
       = table (grouped (combine (dict_keys image_embeddings) labels))
               (py_range num_clusters).
Proof.
  intros Hwf Hrun.
  destruct (np_vstack (map snd image_embeddings)) as [X|e] eqn:Hstack.
  2: { unfold cluster_images in Hrun.
       rewrite (comprehension_keys (dict_index image_embeddings)) in Hrun
         by (intros; now apply dict_index_wf).
       cbn [rbind] in Hrun. now rewrite Hstack in Hrun. }
  destruct (KMeans_fit_labels num_clusters 0 X) as [labels|e] eqn:Hfit.
  2: { unfold cluster_images in Hrun.
       rewrite (comprehension_keys (dict_index image_embeddings)) in Hrun
         by (intros; now apply dict_index_wf).
       cbn [rbind] in Hrun. rewrite Hstack in Hrun. cbn [rbind] in Hrun.
       now rewrite Hfit in Hrun. }
  exists X, labels. split; [reflexivity|]. split; [assumption|].
  destruct (cluster_images_fitted image_embeddings num_clusters X labels
              Hwf Hstack Hfit) as [[_ Hok]|[_ Hraise]]; congruence.
Qed.

(** X7. Whenever [cluster_images] returns, whatever labels the fit gave:
    the keys are [0 .. num_clusters - 1], no filename is in two groups or
    twice in one, every member of a group is a filename of the map, and
    group [i] holds, in the order of the map, the filenames that were
    paired with the label [i]. *)
Theorem cluster_images_returns (image_embeddings : dict string Emb)
  (num_clusters : Z) (clusters : dict Z (list string)) :
  dict_wf image_embeddings ->
  cluster_images image_embeddings num_clusters = Ok clusters ->
  dict_keys clusters = py_range num_clusters
  /\ NoDup (flat_map snd clusters)
  /\ (forall filename, In filename (flat_map snd clusters) ->
        In filename (dict_keys image_embeddings))
  /\ exists (X : Matrix) (labels : list Z),
       np_vstack (map snd image_embeddings) = Ok X
       /\ KMeans_fit_labels num_clusters 0 X = Ok labels
       /\ forall i, (0 <= i < num_clusters)%Z ->
            dict_get clusters i
            = Some (grouped (combine (dict_keys image_embeddings) labels) i).
Proof.
  intros Hwf Hrun.
  destruct (cluster_images_answers _ _ _ Hwf Hrun) as [X [labels [Hs [Hf ->]]]].
  set (pairs := combine (dict_keys image_embeddings) labels).
  assert (Hflat : flat_map snd (table (grouped pairs) (py_range num_clusters))
                  = flat_map (grouped pairs) (py_range num_clusters)).
  { unfold table. generalize (py_range num_clusters) as range.
    induction range as [|i range IH]; cbn; [reflexivity|now rewrite IH]. }
  split; [apply table_keys|]. rewrite Hflat. split; [|split].
  - apply grouped_disjoint_NoDup; [|apply py_range_NoDup].
    now apply combine_fst_NoDup.
  - intros filename Hin. apply in_flat_map in Hin.
    destruct Hin as [i [_ Hin]]. apply grouped_In in Hin.
    now apply in_combine_l in Hin.
  - exists X, labels. repeat split; try assumption.
    intros i Hi. apply table_get_in. now apply py_range_In.
Qed.

(** X8. A label that is no key is an error, not a new group: when the fit
    pairs some filename with a label outside [0 .. num_clusters - 1],
    [cluster_images] raises a [KeyError]. *)
Theorem cluster_images_label_out_of_range (image_embeddings : dict string Emb)
  (num_clusters : Z) (X : Matrix) (labels : list Z) (filename : string)
  (label : Z) :
  dict_wf image_embeddings ->
  np_vstack (map snd image_embeddings) = Ok X ->
  KMeans_fit_labels num_clusters 0 X = Ok labels ->
  In (filename, label) (combine (dict_keys image_embeddings) labels) ->
  ~ (0 <= label < num_clusters)%Z ->
  exists msg, cluster_images image_embeddings num_clusters = Raise (KeyError msg).
Proof.
  intros Hwf Hstack Hfit Hpair Hout.
  destruct (cluster_images_fitted image_embeddings num_clusters X labels
              Hwf Hstack Hfit) as [[Hall _]|[_ Hraise]]; [|eauto].
  exfalso. apply Hout. rewrite Forall_forall in Hall.
  apply py_range_In. apply (Hall _ Hpair).
Qed.

End ClusteringAnyLabels.

(** ** gui.py: the callbacks after a load *)

Lemma comprehension_all {A B : Type} (f : A -> result B) (l : list A) :
  (forall a, In a l -> exists b, f a = Ok b) ->
  exists bs, comprehension f l = Ok bs /\ Forall2 (fun a b => f a = Ok b) l bs.
Proof.
  induction l as [|a l IH]; intros Hf.
  - exists []. split; [reflexivity|constructor].
  - destruct (Hf a) as [b Hb]; [now left|].
    destruct IH as [bs [Hbs Hall]]; [intros; apply Hf; now right|].
    exists (b :: bs). cbn. rewrite Hb. cbn. rewrite Hbs. cbn.
    split; [reflexivity|now constructor].
Qed.

Lemma for_result_all {A S : Type} (body : S -> A -> result S) (l : list A)
  (s : S) :
  (forall s a, In a l -> exists s', body s a = Ok s') ->
  exists s', for_result l body s = Ok s'.
Proof.
  revert s. induction l as [|a l IH]; intros s Hbody; [now exists s|].
  destruct (Hbody s a) as [s' Hs']; [now left|].
  cbn. rewrite Hs'. cbn. apply IH. intros; apply Hbody; now right.
Qed.

Lemma dict_index_key {V : Type} (d : dict string V) (key : string) :
  In key (dict_keys d) -> exists v, dict_index d key = Ok v.
Proof.
  intros Hin. apply dict_get_in_keys in Hin. unfold dict_index.
  destruct (dict_get d key) as [v|]; [eauto|contradiction].
Qed.

Section CallbacksAfterLoad.
Context {Image Emb Score : Type}.
Context `{World Image} `{Clip Image Emb} `{Numpy Emb Score} `{Sklearn Emb}.

(** The state of a successful load: distinct keys, and the embeddings are
    those of the images, key by key. *)
Lemma loaded_state (files : option (list string))
  (folder_path : option string) (status : string)
  (state : @session Image Emb) :
  value (load_images_combined files folder_path) = Ok (status, Some state) ->
  dict_wf (images state)
  /\ embeddings state
     = map (fun '(key, img) => (key, encode_image img)) (images state)
  /\ dict_keys (embeddings state) = dict_keys (images state).
Proof.
  intros Hload. apply load_images_combined_state in Hload.
  destruct Hload as [_ [Hloaded [_ Hemb]]].
  apply load_images_wf in Hloaded.
  rewrite Hemb, get_image_embeddings_map by assumption.
  rewrite dict_keys_map_values. auto.
Qed.

(** X9. After a successful load, [search_images] raises only when the
    encoding of the prompt does (a prompt too long for the model), and then
    with its exception. When the prompt is encoded it returns the images of
    the five best entries of the ranking (of all of them when fewer were
    loaded), each looked up in the state under its filename. *)
Theorem search_images_after_load (files : option (list string))
  (folder_path : option string) (status : string)
  (state : @session Image Emb) (prompt : string) :
  value (load_images_combined files folder_path) = Ok (status, Some state) ->
  (forall e,
     get_text_embedding prompt = Raise e ->
     search_images (Score := Score) prompt (Some state) = Raise e)
  /\ (forall text_emb,
        get_text_embedding prompt = Ok text_emb ->
        exists result_images : list Image,
          search_images (Score := Score) prompt (Some state) = Ok result_images
          /\ List.length result_images
             = Nat.min 5 (List.length (images state))
          /\ Forall2 (fun entry img =>
                        dict_get (images state) (fst entry) = Some img)
                     (search_similar_images (Score := Score)
                        text_emb (embeddings state) 5)
                     result_images).
Proof.
  intros Hload. apply loaded_state in Hload.
  destruct Hload as [Hwf [Hemb Hkeys]].
  assert (Hwf' : dict_wf (embeddings state)).
  { unfold dict_wf. now rewrite Hkeys. }
  split.
  { intros e He. cbn [search_images]. now rewrite He. }
  intros text_emb Htext.
  destruct (search_results text_emb (embeddings state) 5 Hwf')
    as [Hlen [_ Hentries]].
  cbn [search_images]. rewrite Htext. cbn [rbind].
  destruct (comprehension_all
              (fun '(filename, _) => dict_index (images state) filename)
              (search_similar_images (Score := Score)
                 text_emb (embeddings state) 5))
    as [result_images [Hrun Hall]].
  { intros [filename score] Hin. destruct (Hentries _ _ Hin) as [e [He _]].
    apply dict_index_key. rewrite <- Hkeys. now apply (in_map fst) in He. }
  exists result_images. split; [exact Hrun|]. split.
  - rewrite <- (Forall2_length Hall), Hlen. cbn.
    rewrite Hemb, length_map. reflexivity.
  - eapply Forall2_impl; [|exact Hall]. intros [filename score] img.
    unfold dict_index. cbn. destruct (dict_get (images state) filename);
      [now intros [= ->]|discriminate].
Qed.

(** X10. After a successful load, [cluster_images_gui] fails only when
    [cluster_images] does, and then with its exception; when
    [cluster_images] returns, every filename of every group is found in
    the state and the page comes back. *)
Theorem cluster_images_gui_after_load (files : option (list string))
  (folder_path : option string) (status : string)
  (state : @session Image Emb) (num_clusters : Z) :
  value (load_images_combined files folder_path) = Ok (status, Some state) ->
  (forall e,
     cluster_images (embeddings state) num_clusters = Raise e ->
     cluster_images_gui (Some state) num_clusters = Raise e)
  /\ (forall clusters,
        cluster_images (embeddings state) num_clusters = Ok clusters ->
        exists html_output,
          cluster_images_gui (Some state) num_clusters = Ok html_output).
Proof.
  intros Hload. apply loaded_state in Hload.
  destruct Hload as [Hwf [Hemb Hkeys]].
  assert (Hwf' : dict_wf (embeddings state)).
  { unfold dict_wf. now rewrite Hkeys. }
  split.
  - intros e He. cbn [cluster_images_gui]. now rewrite He.
  - intros clusters Hrun. cbn [cluster_images_gui]. rewrite Hrun. cbn [rbind].
    destruct (cluster_images_answers _ _ _ Hwf' Hrun) as [X [labels [_ [_ ->]]]].
    apply for_result_all. intros html [cluster_id filenames] Hin.
    unfold table in Hin. apply in_map_iff in Hin.
    destruct Hin as [i [[= <- <-] _]].
    destruct (for_result_all
                (fun html_output filename =>
                   (let? img := dict_index (images state) filename in
                    let img_base64 := pil_to_base64 img in
                    Ok (html_output +++ "<img src='" +++ img_base64
                        +++ "' style='width: 100px; margin: 5px;'>"))%result)
                (grouped (combine (dict_keys (embeddings state)) labels) i)
                ((html +++ "<h3>Cluster " +++ str_of_Z i +++ "</h3>")
                 +++ "<div style='display:flex; flex-wrap: wrap;'>"))
      as [html' Hinner].
    { intros s filename Hfile. apply grouped_In in Hfile.
      apply in_combine_l in Hfile. rewrite Hkeys in Hfile.
      destruct (dict_index_key _ _ Hfile) as [img Himg].
      rewrite Himg. cbn. eauto. }
    cbv beta iota zeta in Hinner |- *. rewrite Hinner. cbn [rbind]. eauto.
Qed.

End CallbacksAfterLoad.

(** ** gui.py: more on load_images_combined *)

(** Distinct keys are stored in the order they were tried. *)
Lemma load_all_distinct {Image : Type} (fetch : string -> result Image)
  (keys : list string) (images : dict string Image) :
  NoDup keys ->
  (forall key, In key keys -> ~ In key (dict_keys images)) ->
  dict_keys (load_all fetch keys images)
  = dict_keys images ++ filter (fun key => is_ok (fetch key)) keys.
Proof.
  revert images. unfold load_all.
  induction keys as [|k keys IH]; intros images Hnd Hfresh; cbn [fold_left filter].
  - now rewrite app_nil_r.
  - inversion Hnd as [|? ? Hk Hkeys]; subst.
    unfold store at 2. destruct (fetch k) as [img|e]; cbn [is_ok].
    + rewrite dict_set_fresh by (apply Hfresh; now left).
      rewrite IH; [|assumption|].
      * unfold dict_keys. rewrite map_app, <- app_assoc. reflexivity.
      * intros key Hkey Hin. unfold dict_keys in Hin.
        rewrite map_app, in_app_iff in Hin. destruct Hin as [Hin|[<-|[]]].
        -- now apply (Hfresh key); [right|].
        -- contradiction.
    + apply IH; [assumption|]. intros; apply Hfresh; now right.
Qed.

Section MoreOnLoading.
Context {Image Emb : Type} `{World Image} `{Clip Image Emb}.

Lemma local_calls_local (label key : string) :
  Forall (fun e => is_remote_call e = false) (local_calls label key).
Proof.
  unfold local_calls, round_calls.
  destruct (Image_open key); repeat constructor.
Qed.

Lemma uses_connection_not_local (conn : SMBConnection) (e : event) :
  uses_connection conn e -> is_local_call e = false.
Proof. destruct e; cbn; intros Hu; (reflexivity || contradiction). Qed.

(** X11. The two kinds of folder path are kept apart: a load from a local
    path makes no call on a remote connection, and a load from an SMB URL
    makes no call on the local file system, whether the URL parses and the
    connection is built and succeeds or not. *)
Theorem folder_loads_keep_apart (files : option (list string)) (path : string) :
  truthy_list files = false ->
  path <> "" ->
  let calls := trace (load_images_combined (Emb := Emb) files (Some path)) in
  (PyStr.startswith path "smb://" = false ->
   Forall (fun e => is_remote_call e = false) calls)
  /\ (PyStr.startswith path "smb://" = true ->
      Forall (fun e => is_local_call e = false) calls).
Proof.
  intros Hf Hne calls. subst calls. rewrite load_images_combined_finish.
  unfold trace at 1 2. cbn [fst]. split; intros Hsmb.
  - rewrite load_images_local by assumption.
    destruct (os_path_isdir path); cbn [trace fst]; [|repeat constructor].
    constructor; [reflexivity|]. constructor; [reflexivity|].
    apply Forall_flat_map. intros key _. apply local_calls_local.
  - destruct (parse_smb_url path) as [[[server share] rel_path]|e] eqn:Hparse.
    + rewrite (load_images_smb files path server share rel_path) by assumption.
      cbv zeta.
      destruct (SMBConnection_init _); cbn [trace fst]; [|constructor].
      destruct (smb_connect _ _ _) as [[|]|]; cbn [trace fst];
        [|repeat constructor..].
      constructor; [reflexivity|]. apply Forall_app. split; [|repeat constructor].
      eapply Forall_impl; [apply uses_connection_not_local|].
      apply walk_calls_use, smb_walk_calls.
    + rewrite (load_images_bad_url files path e) by assumption. constructor.
Qed.




End MoreOnLoading.

(** ** src/image_embeddings.py: load_images_from_folder *)

Lemma filter_all {A : Type} (p : A -> bool) (l : list A) :
  (forall a, In a l -> p a = true) -> filter p l = l.
Proof.
  induction l as [|a l IH]; intros Hp; [reflexivity|].
  cbn. rewrite (Hp a) by now left.
  f_equal. apply IH. intros; apply Hp; now right.
Qed.

Section ImagesFromFolderProperties.
Context {Image : Type} `{World Image} `{Listdir}.

(** The loop of [load_images_from_folder] on names that all open. *)
Lemma folder_loop_all_open (folder_path : string) (names : list string)
  (images : dict string Image) :
  (forall name, In name names -> is_image_name name = true ->
                is_ok (Image_open (os_path_join folder_path name)) = true) ->
  for_result names
    (fun (images : dict string Image) filename =>
       if is_image_name filename then
         let path := os_path_join folder_path filename in
         (let? img := Image_open path in
          Ok (dict_set images filename img))%result
       else Ok images)
    images
  = Ok (fold_left
          (fun (images : dict string Image) filename =>
             match Image_open (os_path_join folder_path filename) with
             | Ok img => dict_set images filename img
             | Raise _ => images
             end)
          (filter is_image_name names) images).
Proof.
  revert images. induction names as [|name names IH]; intros images Hopen;
    [reflexivity|].
  cbn [for_result filter]. destruct (is_image_name name) eqn:Himg.
  - cbv zeta. pose proof (Hopen name (or_introl eq_refl) Himg) as Hok.
    destruct (Image_open (os_path_join folder_path name)) as [img|e] eqn:Hname;
      [|discriminate].
    cbn [rbind fold_left]. rewrite Hname.
    apply IH. intros; apply Hopen; [now right|assumption].
  - cbn [rbind]. apply IH. intros; apply Hopen; [now right|assumption].
Qed.

(** X15. [load_images_from_folder] is all or nothing: when an image of the
    listing fails to open after images that opened, the exception of that
    first failure is raised and no dictionary comes back; the exception of
    a failed listing is raised as well. *)
Theorem load_images_from_folder_first_failure (folder_path : string) :
  (forall e, os_listdir folder_path = Raise e ->
             load_images_from_folder folder_path = Raise e)
  /\ (forall before bad after e,
        os_listdir folder_path = Ok (before ++ bad :: after) ->
        (forall name, In name before -> is_image_name name = true ->
           is_ok (Image_open (os_path_join folder_path name)) = true) ->
        is_image_name bad = true ->
        Image_open (os_path_join folder_path bad) = Raise e ->
        load_images_from_folder folder_path = Raise e).
Proof.
  split.
  - intros e He. unfold load_images_from_folder. now rewrite He.
  - intros before bad after e Hlist Hbefore Hbad He.
    unfold load_images_from_folder. rewrite Hlist. cbn [rbind]. clear Hlist.
    generalize (@nil (string * Image)) as images.
    induction before as [|name before IH]; intros images.
    + cbn [app for_result]. rewrite Hbad. cbv zeta. now rewrite He.
    + cbn [app for_result]. destruct (is_image_name name) eqn:Himg.
      * cbv zeta. pose proof (Hbefore name (or_introl eq_refl) Himg) as Hok.
        destruct (Image_open (os_path_join folder_path name)); [|discriminate].
        cbn [rbind]. apply IH. intros; apply Hbefore; [now right|assumption].
      * cbn [rbind]. apply IH. intros; apply Hbefore; [now right|assumption].
Qed.

(** X16. When every image of the listing opens, [load_images_from_folder]
    returns them under their bare names (not their paths), for distinct
    names in the order of the listing, and nothing else: names without an
    image extension, subdirectories among them, are passed over, so the
    function does not descend. *)
Theorem load_images_from_folder_all_open (folder_path : string)
  (names : list string) :
  os_listdir folder_path = Ok names ->
  NoDup names ->
  (forall name, In name names -> is_image_name name = true ->
     is_ok (Image_open (os_path_join folder_path name)) = true) ->
  exists images : dict string Image,
    load_images_from_folder folder_path = Ok images
    /\ dict_keys images = filter is_image_name names
    /\ forall name img,
         In name names -> is_image_name name = true ->
         Image_open (os_path_join folder_path name) = Ok img ->
         dict_get images name = Some img.
Proof.
  intros Hlist Hnd Hopen. unfold load_images_from_folder.
  rewrite Hlist. cbn [rbind]. rewrite folder_loop_all_open by assumption.
  eexists. split; [reflexivity|].
  set (fetch := fun name => Image_open (os_path_join folder_path name)).
  change (fold_left _ (filter is_image_name names) [])
    with (load_all fetch (filter is_image_name names) []).
  split.
  - rewrite load_all_distinct; [|now apply NoDup_filter|auto].
    cbn [dict_keys map app]. apply filter_all. intros name Hin.
    apply filter_In in Hin. destruct Hin as [Hin Himg].
    unfold fetch. now apply Hopen.
  - intros name img Hin Himg Hname. apply load_all_loaded; [|exact Hname].
    apply filter_In. auto.
Qed.

End ImagesFromFolderProperties.

(** * Concrete runs

    The statements above at inputs of the small world. *)

Import Demo.

Example local_load_run :
  load_images_combined (Emb := Emb) None (Some "/pics")
  = ([EvIsDir "/pics"; EvOsWalk "/pics"; EvImageOpen "/pics/a.png";
      EvImageOpen "/pics/c.jpeg";
      EvPrint "Error loading local file: /pics/c.jpeg cannot identify image file";
      EvImageOpen "/pics/sub/b.JPG"],
     Ok ("Images loaded successfully", Some local_state)).
Proof. reflexivity. Qed.

Example remote_load_run :
  value (load_images_combined (Emb := Emb) None (Some "smb://nas/photos"))
  = Ok ("Images loaded successfully",
        Some {| images := remote_images;
                embeddings := get_image_embeddings remote_images |}).
Proof. reflexivity. Qed.

(** A server that refuses the login is reported; a server that cannot be
    reached is not: the exception of [connect] leaves the loader. *)
Example refused_load_run :
  load_images_combined (Emb := Emb) None (Some "smb://vault/photos")
  = ([EvConnect (connection_of "vault") "vault" 445],
     Ok ("Connection failed.", None)).
Proof. reflexivity. Qed.

Example unreachable_load_run :
  load_images_combined (Emb := Emb) None (Some "smb://attic/photos")
  = ([EvConnect (connection_of "attic") "attic" 445],
     Raise (OSError "[Errno -2] Name or service not known")).
Proof. reflexivity. Qed.

(** A prompt of 80 characters does not fit the context of the encoder. *)
Example long_prompt_run :
  search_images (Score := Score)
    "a photo of a cat sitting on a red sofa next to a window in the evening light ..."
    (Some local_state)
  = Raise (RuntimeError "Input is too long for context length 77").
Proof. reflexivity. Qed.

Example search_run :
  search_similar_images (text_vector "abc") library 2
  = [("dog.png", 1000%Z); ("tree.png", 1000%Z)].
Proof. reflexivity. Qed.

(** A negative [top_k] is not a count: the slice then drops entries from
    the end. *)
Example search_negative_top_k :
  search_similar_images (text_vector "abc") library (-1)
  = [("dog.png", 1000%Z); ("tree.png", 1000%Z); ("cat.png", 866%Z)].
Proof. reflexivity. Qed.

Example cluster_run :
  cluster_images library 2
  = Ok [(0%Z, ["cat.png"; "car.png"]); (1%Z, ["dog.png"; "tree.png"])].
Proof. reflexivity. Qed.

Lemma library_wf : dict_wf library.
Proof.
  unfold dict_wf. cbn. repeat constructor; cbn; intuition discriminate.
Qed.

(** The scores of [library] against the text [(3, 4)], with scores that can
    be a NaN: none of them is. *)
Lemma search_similar_images_top_k_witness :
  exists ranked : list (string * option Z),
    Permutation ranked
      [("cat.png", Some 1000%Z); ("dog.png", Some 960%Z);
       ("car.png", Some 800%Z); ("tree.png", Some 600%Z)]
    /\ StronglySorted
         (fun a b => @score_lt _ _ numpy_with_nan (snd a) (snd b) = false)
         ranked
    /\ @search_similar_images _ _ numpy_with_nan [3; 4]%Z library 2
       = firstn (Z.to_nat 2) ranked
    /\ (Z.of_nat (List.length
          (@search_similar_images _ _ numpy_with_nan [3; 4]%Z library 2))
        <= 2)%Z.
Proof.
  apply (@search_similar_images_top_k _ _ numpy_with_nan [3; 4]%Z library 2).
  - split.
    + intros a b Ha Hb. cbn in Ha, Hb.
      repeat (destruct Ha as [<-|Ha]; [|]); try contradiction;
        repeat (destruct Hb as [<-|Hb]; [|]); try contradiction;
        cbn; congruence.
    + intros a b c Ha Hb Hc. cbn in Ha, Hb, Hc.
      repeat (destruct Ha as [<-|Ha]; [|]); try contradiction;
        repeat (destruct Hb as [<-|Hb]; [|]); try contradiction;
        repeat (destruct Hc as [<-|Hc]; [|]); try contradiction;
        cbn; congruence.
  - exact library_wf.
  - lia.
Defined.

(** C1 as stated, for every map, does not hold: the blank image of [album]
    has the zero vector for its embedding, its score is the quotient of
    zero by zero, and with this NaN among the scores the two results are
    not the two best: [dog.png], whose score is the greatest, is left out,
    and [cat.png] with a smaller score is returned. No ranking of the
    entries by descending score begins with what is returned. *)
Lemma search_similar_images_nan_hides_best :
  @search_similar_images _ _ numpy_with_nan [3; 4]%Z album 2
  = [("cat.png", Some 960%Z); ("blank.png", None)]
  /\ @scored _ _ numpy_with_nan [3; 4]%Z album
     = [("cat.png", Some 960%Z); ("blank.png", None);
        ("dog.png", Some 1000%Z)]
  /\ @score_lt _ _ numpy_with_nan (Some 960%Z) (Some 1000%Z) = true
  /\ ~ (exists ranked : list (string * option Z),
          Permutation ranked (@scored _ _ numpy_with_nan [3; 4]%Z album)
          /\ StronglySorted
               (fun a b => @score_lt _ _ numpy_with_nan (snd a) (snd b) = false)
               ranked
          /\ @search_similar_images _ _ numpy_with_nan [3; 4]%Z album 2
             = firstn (Z.to_nat 2) ranked).
Proof.
  split; [reflexivity|]. split; [reflexivity|]. split; [reflexivity|].
  intros [ranked [Hperm [Hsorted Hfirst]]].
  change (@scored _ _ numpy_with_nan [3; 4]%Z album)
    with [("cat.png", Some 960%Z); ("blank.png", @None Z);
          ("dog.png", Some 1000%Z)] in Hperm.
  change (@search_similar_images _ _ numpy_with_nan [3; 4]%Z album 2)
    with [("cat.png", Some 960%Z); ("blank.png", @None Z)] in Hfirst.
  pose proof (Permutation_length Hperm) as Hlen.
  destruct ranked as [|a [|b [|c [|d ranked]]]]; try discriminate.
  cbn in Hfirst. injection Hfirst as <- <-.
  apply Permutation_cons_inv, Permutation_cons_inv in Hperm.
  apply Permutation_length_1 in Hperm. subst c.
  inversion Hsorted as [|? ? _ Hcat]; subst.
  inversion Hcat as [|? ? _ Hrest]; subst.
  inversion Hrest as [|? ? Hdog _]; subst.
  discriminate.
Qed.

Lemma cluster_images_partition_witness :
  (exists clusters : dict Z (list string),
     cluster_images library 2 = Ok clusters
     /\ is_partition library 2 clusters)
  /\ cluster_images library 5
     = Raise (ValueError "n_samples should be >= n_clusters").
Proof.
  split.
  - apply (proj1 (@cluster_images_partition Emb sklearn library 2
                    library_wf ltac:(discriminate))
             (map snd library) [0; 1; 0; 1]%Z).
    + reflexivity.
    + reflexivity.
    + reflexivity.
    + repeat constructor; lia.
  - apply (proj1 (proj2 (proj2 (@cluster_images_partition Emb sklearn library 5
                                  library_wf ltac:(discriminate))))
             (map snd library)).
    + reflexivity.
    + reflexivity.
Defined.

(** C2 as stated, for every requested cluster count, does not hold: with
    five clusters requested for four images the fit raises, and so does
    [cluster_images]; and with no cluster requested no answer of any
    library makes a partition. *)
Lemma cluster_images_not_for_every_count :
  cluster_images library 5
  = Raise (ValueError "n_samples should be >= n_clusters")
  /\ ~ (exists (S : Sklearn Emb) (clusters : dict Z (list string)),
          @cluster_images Emb S library 0 = Ok clusters
          /\ is_partition library 0 clusters).
Proof.
  split; [reflexivity|].
  intros [S [clusters [_ Hpartition]]].
  apply is_partition_positive in Hpartition; [lia|discriminate].
Qed.

Lemma load_images_combined_same_keys_witness :
  value (load_images_combined None (Some "/pics"))
  = Ok ("Images loaded successfully", Some local_state)
  /\ dict_keys (embeddings local_state) = dict_keys (images local_state).
Proof.
  split; [reflexivity|].
  apply (load_images_combined_same_keys None (Some "/pics")
           "Images loaded successfully" local_state).
  reflexivity.
Defined.


Lemma load_images_combined_errors_witness :
  value (load_images_combined (Emb := Emb) None (Some "smb://nas"))
  = Ok ("Invalid SMB URL: SMB URL must contain at least server and share",
        None)
  /\ load_error (Some []) (Some "smb://vault/photos") "Connection failed.".
Proof.
  split.
  - apply (proj1 (proj1 (load_images_combined_errors (Emb := Emb)
                           None (Some "smb://nas")) _)).
    now apply (InvalidUrl None (Some "smb://nas") "smb://nas"
                 (ValueError "SMB URL must contain at least server and share")).
  - apply (proj2 (proj1 (load_images_combined_errors (Emb := Emb)
                           (Some []) (Some "smb://vault/photos")) _)).
    reflexivity.
Defined.

Lemma load_images_combined_connect_raises_witness :
  load_images_combined (Emb := Emb) None (Some "smb://attic/photos")
  = ([EvConnect (connection_of "attic") "attic" 445],
     Raise (OSError "[Errno -2] Name or service not known"))
  /\ (forall status (state : option (@session Image Emb)),
        value (load_images_combined None (Some "smb://attic/photos"))
        <> Ok (status, state)).
Proof.
  apply (load_images_combined_connect_raises (Emb := Emb) None
           "smb://attic/photos" "attic" "photos" "/"
           (OSError "[Errno -2] Name or service not known"));
    reflexivity.
Defined.





(** ** Further runs *)

Import DemoFolder.

Lemma parse_smb_url_components_witness :
  PyStr.lacks "/" "nas"
  /\ PyStr.lacks "/" "photos"
  /\ PyStr.startswith "/2024/trip" "/" = true
  /\ PyStr.startswith "smb://nas/photos/2024/trip"
                      ("smb://" +++ "nas" +++ "/" +++ "photos") = true
  /\ ("/2024/trip" <> "/" ->
      "smb://nas/photos/2024/trip"
      = "smb://" +++ "nas" +++ "/" +++ "photos" +++ "/2024/trip").
Proof.
  apply (parse_smb_url_components "smb://nas/photos/2024/trip"
           "nas" "photos" "/2024/trip").
  reflexivity.
Defined.

Lemma smb_walk_hides_dot_entries_witness :
  In "s.JPEG" (yielded_names (smb_walk (connection_of "nas") photos "photos" "/"))
  /\ "s.JPEG" <> "." /\ "s.JPEG" <> "..".
Proof.
  assert (Hin : In "s.JPEG"
                   (yielded_names
                      (smb_walk (connection_of "nas") photos "photos" "/"))).
  { cbn. tauto. }
  split; [exact Hin|].
  exact (smb_walk_hides_dot_entries (connection_of "nas") "photos" photos "/"
           "s.JPEG" Hin).
Defined.


Lemma search_similar_images_size_witness :
  List.length (search_similar_images (text_vector "abc") library 9) = 4%nat
  /\ List.length (search_similar_images (text_vector "abc") library (-3)) = 1%nat.
Proof.
  assert (Hwf : dict_wf library).
  { unfold dict_wf. cbn. repeat constructor; cbn; intuition discriminate. }
  split.
  - exact (proj1 (search_similar_images_size (text_vector "abc") library 9 Hwf)).
  - exact (proj1 (search_similar_images_size (text_vector "abc") library (-3) Hwf)).
Defined.


Lemma cluster_images_returns_witness :
  dict_keys [(0%Z, ["cat.png"; "car.png"]); (1%Z, ["dog.png"; "tree.png"])]
  = py_range 2
  /\ NoDup (flat_map snd
              [(0%Z, ["cat.png"; "car.png"]); (1%Z, ["dog.png"; "tree.png"])]).
Proof.
  destruct (cluster_images_returns library 2
              [(0%Z, ["cat.png"; "car.png"]); (1%Z, ["dog.png"; "tree.png"])])
    as [Hkeys [Hnodup _]].
  - unfold dict_wf. cbn. repeat constructor; cbn; intuition discriminate.
  - reflexivity.
  - split; assumption.
Defined.

Lemma cluster_images_label_out_of_range_witness :
  exists msg, @cluster_images Emb stray_sklearn library 2 = Raise (KeyError msg).
Proof.
  apply (@cluster_images_label_out_of_range Emb stray_sklearn library 2
           (map snd library) [2; 2; 2; 2]%Z "cat.png" 2%Z).
  - unfold dict_wf. cbn. repeat constructor; cbn; intuition discriminate.
  - reflexivity.
  - reflexivity.
  - now left.
  - lia.
Defined.

Lemma search_images_after_load_witness :
  (exists result_images : list Image,
     search_images (Score := Score) "abc" (Some local_state) = Ok result_images
     /\ List.length result_images = Nat.min 5 (List.length (images local_state))
     /\ Forall2 (fun entry img =>
                   dict_get (images local_state) (fst entry) = Some img)
                (search_similar_images (Score := Score)
                   (text_vector "abc") (embeddings local_state) 5)
                result_images)
  /\ search_images (Score := Score)
       "a photo of a cat sitting on a red sofa next to a window in the evening light ..."
       (Some local_state)
     = Raise (RuntimeError "Input is too long for context length 77").
Proof.
  split.
  - destruct (search_images_after_load (Score := Score) None (Some "/pics")
                "Images loaded successfully" local_state "abc")
      as [_ Hencoded]; [reflexivity|].
    apply (Hencoded (text_vector "abc")). reflexivity.
  - destruct (search_images_after_load (Score := Score) None (Some "/pics")
                "Images loaded successfully" local_state
                "a photo of a cat sitting on a red sofa next to a window in the evening light ...")
      as [Hraised _]; [reflexivity|].
    apply Hraised. reflexivity.
Defined.

Lemma cluster_images_gui_after_load_witness :
  exists html_output, cluster_images_gui (Some local_state) 2 = Ok html_output.
Proof.
  destruct (cluster_images_gui_after_load None (Some "/pics")
              "Images loaded successfully" local_state 2) as [_ Hok];
    [reflexivity|].
  apply (Hok [(0%Z, ["/pics/a.png"]); (1%Z, ["/pics/sub/b.JPG"])]).
  reflexivity.
Defined.

Lemma folder_loads_keep_apart_witness :
  Forall (fun e => is_remote_call e = false)
         (trace (load_images_combined (Emb := Emb) None (Some "/pics")))
  /\ Forall (fun e => is_local_call e = false)
            (trace (load_images_combined (Emb := Emb) None
                                         (Some "smb://nas/photos"))).
Proof.
  split.
  - destruct (folder_loads_keep_apart (Emb := Emb) None "/pics")
      as [Hlocal _]; [reflexivity|discriminate|].
    apply Hlocal. reflexivity.
  - destruct (folder_loads_keep_apart (Emb := Emb) None "smb://nas/photos")
      as [_ Hremote]; [reflexivity|discriminate|].
    apply Hremote. reflexivity.
Defined.




Lemma load_images_from_folder_first_failure_witness :
  load_images_from_folder "/pics"
  = Raise (OSError "cannot identify image file").
Proof.
  apply (proj2 (load_images_from_folder_first_failure "/pics")
           ["a.png"; "sub"] "c.jpeg" ["notes.txt"]); try reflexivity.
  intros name [<-|[<-|[]]] Himg; [reflexivity|discriminate].
Defined.

Lemma load_images_from_folder_all_open_witness :
  exists images : dict string Image,
    load_images_from_folder "/pics/sub" = Ok images
    /\ dict_keys images = filter is_image_name ["b.JPG"; "readme"]
    /\ forall name img,
         In name ["b.JPG"; "readme"] -> is_image_name name = true ->
         Image_open (os_path_join "/pics/sub" name) = Ok img ->
         dict_get images name = Some img.
Proof.
  apply (load_images_from_folder_all_open "/pics/sub" ["b.JPG"; "readme"]).
  - reflexivity.
  - repeat constructor; cbn; intuition discriminate.
  - intros name [<-|[<-|[]]] Himg; [reflexivity|discriminate].
Defined.
